(** * Signal-Processing-Pipeline: a shallow embedding of [signal_processing.py]

    The program synthesises three periodic waveforms on a sampled time
    base, adds seeded Gaussian noise, smooths with a moving-average
    convolution and reports an SNR figure and descriptive statistics.

    Numbers.  Array elements are modelled as mathematical reals ([R]):
    the development describes the arithmetic the program performs, not
    the rounding of binary64, and an equality of computed values is to
    be read up to rounding.  Two generators are the exception.  The
    square wave jumps where a computed sine changes sign and the
    sawtooth where a computed remainder wraps, so there a rounding
    error changes the result by a whole step; their arithmetic is taken
    from [Binary64], which says nothing about what rounding returns.
    Scalars that NumPy may return as [nan] or [inf] live in [npfloat].
    Python integers are [Z], array lengths and indices are [nat].

    Layout.  [Python] holds the few language-level notions that are used
    (exceptions, [int()], numeric arguments), [Numpy] the library
    routines the program calls, written after NumPy's own code, and
    [SignalProcessing] the functions of the source file under their own
    names.  Theorems follow the definitions. *)

From Stdlib Require Import String Reals List ZArith Lia Lra Bool.
Import ListNotations.

Open Scope R_scope.

(* ================================================================== *)
(** ** Python: exceptions, results, numeric arguments                   *)
(* ================================================================== *)

Module Python.

(** The two built-in exception classes the program can raise. *)
Inductive exn : Type :=
| ValueError
| TypeError.

(** The outcome of a call: a value, or a raised exception. *)
Inductive result (A : Type) : Type :=
| Ok (a : A)
| Raise (e : exn).

Arguments Ok {A} a.
Arguments Raise {A} e.

Definition bind {A B} (r : result A) (k : A -> result B) : result B :=
  match r with
  | Ok a => k a
  | Raise e => Raise e
  end.

(** A numeric argument as the caller may pass it: a Python [int] or a
    Python [float]. *)
Inductive pynum : Type :=
| PyInt (n : Z)
| PyFloat (x : R).

Definition pynum_value (w : pynum) : R :=
  match w with
  | PyInt n => IZR n
  | PyFloat x => x
  end.

(** [int(x)] on a float: truncation towards zero. *)
Definition py_int (x : R) : Z :=
  if Rle_dec 0 x then Int_part x else (- Int_part (- x))%Z.

End Python.

Export Python.

Declare Scope py_scope.
Delimit Scope py_scope with py.
Notation "x <- e ;; k" := (bind e (fun x => k))
  (at level 61, e at next level, right associativity) : py_scope.
Open Scope py_scope.

(* ================================================================== *)
(** ** NumPy: the array routines the program calls                      *)
(* ================================================================== *)

Module Numpy.

(** A one-dimensional float array. *)
Definition ndarray : Type := list R.

(** A float scalar, with the three non-finite values. *)
Inductive npfloat : Type :=
| Fin (r : R)
| PosInf
| NegInf
| NaN.

Definition np_inf : npfloat := PosInf.

(** *** Elementwise arithmetic *)

(** Pairing up two arrays element by element. *)
Fixpoint map2 (f : R -> R -> R) (a b : ndarray) : ndarray :=
  match a, b with
  | x :: a', y :: b' => f x y :: map2 f a' b'
  | _, _ => []
  end.

(** A binary operator on two arrays: equal lengths pair up, a
    one-element operand is broadcast, anything else is a [ValueError]. *)
Definition broadcast2 (f : R -> R -> R) (a b : ndarray) : result ndarray :=
  if (length a =? length b)%nat then Ok (map2 f a b)
  else
    match a, b with
    | [x], _ => Ok (map (f x) b)
    | _, [y] => Ok (map (fun x => f x y) a)
    | _, _ => Raise ValueError
    end.

Definition np_add (a b : ndarray) : result ndarray := broadcast2 Rplus a b.
Definition np_subtract (a b : ndarray) : result ndarray := broadcast2 Rminus a b.

(** [a ** 2]. *)
Definition np_square (a : ndarray) : ndarray := map (fun x => x * x) a.

(** [a / c] for a scalar [c]. *)
Definition np_divide_scalar (a : ndarray) (c : R) : ndarray :=
  map (fun x => x / c) a.

(** [np.sin] in exact arithmetic, as the sine wave uses it, and
    [np.sign], on one element. *)
Definition np_sin (x : R) : R := sin x.

Definition np_sign (x : R) : R :=
  if Rlt_dec x 0 then -1
  else if Rlt_dec 0 x then 1
  else 0.

(** *** Binary64 evaluation

    What the rounded operations return, left open: [np_pi] is the float
    [np.pi]; [fl_mul], [fl_div] and [fl_sub] are the rounded product,
    quotient and difference of two floats; [fl_sin x] is what [np.sin]
    returns on the float [x]; [fl_mod x m] is what [x % m] returns.
    None of them is assumed to agree with the exact operation: the
    computed sine of a computed multiple of [np.pi] need not be zero,
    and a computed remainder need not stay below its divisor. *)
Class Binary64 : Type := {
  np_pi : R;
  fl_mul : R -> R -> R;
  fl_div : R -> R -> R;
  fl_sub : R -> R -> R;
  fl_sin : R -> R;
  fl_mod : R -> R -> R;
}.

(** *** Array creation *)

(** [np.ones(shape)]: a float shape is a [TypeError], a negative one a
    [ValueError]. *)
Definition np_ones (shape : pynum) : result ndarray :=
  match shape with
  | PyFloat _ => Raise TypeError
  | PyInt n =>
      if (n <? 0)%Z then Raise ValueError
      else Ok (repeat 1 (Z.to_nat n))
  end.

(** [np.arange(0, num)] as floats. *)
Definition np_arange (num : nat) : ndarray := map INR (seq 0 num).

(** [y[-1] = v]. *)
Definition set_last (y : ndarray) (v : R) : ndarray :=
  match y with
  | [] => []
  | _ => removelast y ++ [v]
  end.

(** [np.linspace(start, stop, num)] with the default [endpoint=True]:
    the divisor is [num - 1] and the last sample is overwritten with
    [stop]. *)
Definition np_linspace (start stop : R) (num : Z) : result ndarray :=
  if (num <? 0)%Z then Raise ValueError
  else
    let div := (num - 1)%Z in
    let delta := stop - start in
    let y := np_arange (Z.to_nat num) in
    let y :=
      if (0 <? div)%Z then
        let step := delta / IZR div in
        if Req_dec_T step 0
        then map (fun v => v / IZR div * delta) y
        else map (fun v => v * step) y
      else map (fun v => v * delta) y in
    let y := map (fun v => v + start) y in
    let y := if (1 <? num)%Z then set_last y stop else y in
    Ok y.

(** *** Convolution *)

(** The inner product of [n] consecutive elements read from offset [ia]
    of [a] and offset [iv] of [v], accumulated from the left. *)
Definition dot (a : ndarray) (ia : nat) (v : ndarray) (iv : nat) (n : nat) : R :=
  fold_left (fun tmp k => tmp + nth (ia + k) a 0 * nth (iv + k) v 0) (seq 0 n) 0.

(** [correlate(ap1, ap2, mode='same')] for [len ap1 >= len ap2 >= 1]:
    a ramp-up of [n_left] partial products, the [n1 - n2 + 1] full
    ones, and a ramp-down of [n_right] partial products. *)
Definition correlate_same (ap1 ap2 : ndarray) : ndarray :=
  let n1 := length ap1 in
  let n2 := length ap2 in
  let n_left := (n2 / 2)%nat in
  let n_right := (n2 - n_left - 1)%nat in
  map (fun i => dot ap1 0 ap2 (n_left - i) (n2 - n_left + i)) (seq 0 n_left)
  ++ map (fun i => dot ap1 i ap2 0 n2) (seq 0 (n1 - n2 + 1))
  ++ map (fun i => dot ap1 (n1 - n2 + 1 + i) ap2 0 (n2 - 1 - i)) (seq 0 n_right).

(** [np.convolve(a, v, mode='same')]: the longer operand goes first,
    an empty operand is a [ValueError], and the work is done by
    [correlate] on the reversed second operand. *)
Definition np_convolve_same (a v : ndarray) : result ndarray :=
  let '(a, v) := if (length a <? length v)%nat then (v, a) else (a, v) in
  if (length a =? 0)%nat then Raise ValueError
  else if (length v =? 0)%nat then Raise ValueError
  else Ok (correlate_same a (rev v)).

(** *** Scalar arithmetic on [npfloat] (signed zeros are not told apart) *)

(** [x > 0]: false on [nan]. *)
Definition f_gt0 (x : npfloat) : bool :=
  match x with
  | Fin r => if Rlt_dec 0 r then true else false
  | PosInf => true
  | NegInf | NaN => false
  end.

Definition f_neg (x : npfloat) : npfloat :=
  match x with
  | Fin r => Fin (- r)
  | PosInf => NegInf
  | NegInf => PosInf
  | NaN => NaN
  end.

(** An infinity of the sign of [r], or [nan] when [r] is zero. *)
Definition inf_of_sign (r : R) : npfloat :=
  if Rlt_dec 0 r then PosInf
  else if Rlt_dec r 0 then NegInf
  else NaN.

Definition f_mul (x y : npfloat) : npfloat :=
  match x, y with
  | NaN, _ | _, NaN => NaN
  | Fin a, Fin b => Fin (a * b)
  | Fin a, PosInf | PosInf, Fin a => inf_of_sign a
  | Fin a, NegInf | NegInf, Fin a => f_neg (inf_of_sign a)
  | PosInf, PosInf | NegInf, NegInf => PosInf
  | PosInf, NegInf | NegInf, PosInf => NegInf
  end.

Definition f_div (x y : npfloat) : npfloat :=
  match x, y with
  | NaN, _ | _, NaN => NaN
  | Fin a, Fin b => if Req_dec_T b 0 then inf_of_sign a else Fin (a / b)
  | Fin _, (PosInf | NegInf) => Fin 0
  | PosInf, Fin b => if Rlt_dec b 0 then NegInf else PosInf
  | NegInf, Fin b => if Rlt_dec b 0 then PosInf else NegInf
  | (PosInf | NegInf), (PosInf | NegInf) => NaN
  end.

(** [np.sqrt] and [np.log10] on a scalar: out of domain they warn and
    return [nan] or [-inf], they do not raise. *)
Definition np_sqrt (x : npfloat) : npfloat :=
  match x with
  | Fin r => if Rlt_dec r 0 then NaN else Fin (sqrt r)
  | PosInf => PosInf
  | NegInf | NaN => NaN
  end.

Definition log10 (r : R) : R := ln r / ln 10.

Definition np_log10 (x : npfloat) : npfloat :=
  match x with
  | Fin r =>
      if Rlt_dec 0 r then Fin (log10 r)
      else if Rlt_dec r 0 then NaN
      else NegInf
  | PosInf => PosInf
  | NegInf | NaN => NaN
  end.

(** *** Reductions *)

Definition np_sum (a : ndarray) : R := fold_left Rplus a 0.

(** [np.mean]: [nan] (with a warning) on an empty array. *)
Definition np_mean (a : ndarray) : npfloat :=
  match a with
  | [] => NaN
  | _ => Fin (np_sum a / INR (length a))
  end.

(** [np.std]: the square root of the mean squared deviation from the
    mean (population form, [ddof=0]); [nan] on an empty array. *)
Definition np_std (a : ndarray) : npfloat :=
  match np_mean a with
  | Fin m => np_sqrt (np_mean (np_square (map (fun x => x - m) a)))
  | other => other
  end.

(** [np.min], [np.max]: a reduction with no identity, so an empty
    array is a [ValueError]. *)
Definition np_min (a : ndarray) : result R :=
  match a with
  | [] => Raise ValueError
  | x :: a' => Ok (fold_left Rmin a' x)
  end.

Definition np_max (a : ndarray) : result R :=
  match a with
  | [] => Raise ValueError
  | x :: a' => Ok (fold_left Rmax a' x)
  end.

(** *** The global legacy generator ([np.random.seed], [np.random.normal])

    The generator's state is identified by the key it was initialised
    from and by how many standard normal variates it has handed out
    since.  What the Mersenne Twister and the polar method compute from
    a key is not modelled: [gauss key k] stands for the [k]-th variate
    (counted from 0) that follows initialisation with [key]. *)

Record RandomState : Type := mkRandomState { rs_key : Z; rs_pos : nat }.

Class GaussStream : Type := gauss : Z -> nat -> R.

(** A computation that may read and update the global generator and
    may raise; the generator's state survives an exception. *)
Definition rand (A : Type) : Type := RandomState -> result A * RandomState.

Definition rand_ret {A} (a : A) : rand A := fun st => (Ok a, st).

Definition rand_bind {A B} (m : rand A) (k : A -> rand B) : rand B :=
  fun st =>
    match m st with
    | (Ok a, st') => k a st'
    | (Raise e, st') => (Raise e, st')
    end.

Definition rand_lift {A} (r : result A) : rand A := fun st => (r, st).

(** [np.random.seed(seed)] with an integer: the key must fit 32 bits. *)
Definition np_random_seed (seed : Z) : rand unit :=
  fun st =>
    if ((0 <=? seed) && (seed <=? 2 ^ 32 - 1))%Z
    then (Ok tt, mkRandomState seed 0)
    else (Raise ValueError, st).

(** [np.random.normal(loc, scale, size)]: a negative [scale] is a
    [ValueError]; otherwise each element is [loc + scale * g] for the
    next standard normal variate [g]. *)
Definition np_random_normal `{GaussStream} (loc scale : R) (size : nat)
  : rand ndarray :=
  fun st =>
    if Rlt_dec scale 0 then (Raise ValueError, st)
    else
      (Ok (map (fun k => loc + scale * gauss (rs_key st) (rs_pos st + k))
               (seq 0 size)),
       mkRandomState (rs_key st) (rs_pos st + size)).

End Numpy.

Export Numpy.

Notation "x <~ e ;; k" := (rand_bind e (fun x => k))
  (at level 61, e at next level, right associativity) : py_scope.

(* ================================================================== *)
(** ** The source file                                                  *)
(* ================================================================== *)

Module SignalProcessing.

(** *** Configurable parameters *)

Record Config : Type := mkConfig {
  frequency : R;
  amplitude : R;
  duration : R;
  sample_rate : R;
  noise_level : R;
  filter_window : pynum;
}.

Definition SIGNAL_CONFIG : Config :=
  {| frequency := 2;
     amplitude := 1;
     duration := 2;
     sample_rate := 1000;
     noise_level := 2 / 10;
     filter_window := PyInt 20 |}.

(** *** Signal generation *)

Definition generate_sine_wave (t : ndarray) (frequency amplitude : R) : ndarray :=
  map (fun ti => amplitude * np_sin (2 * PI * frequency * ti)) t.

(** The sign is taken of the computed sine.  The outer product is
    written exactly: a float times [-1], [0] or [1] is not rounded. *)
Definition generate_square_wave `{Binary64} (t : ndarray) (frequency amplitude : R)
  : ndarray :=
  map (fun ti =>
         amplitude
         * np_sign (fl_sin (fl_mul (fl_mul (fl_mul 2 np_pi) frequency) ti)))
      t.

Definition generate_sawtooth_wave `{Binary64} (t : ndarray) (frequency amplitude : R)
  : ndarray :=
  let phase :=
    map (fun ti =>
           fl_mod (fl_mul (fl_mul (fl_mul 2 np_pi) frequency) ti)
                  (fl_mul 2 np_pi))
        t in
  map (fun ph => fl_mul amplitude (fl_sub (fl_div ph np_pi) 1)) phase.

(** *** Noise and filtering *)

Definition default_seed : Z := 42.

Definition add_noise `{GaussStream} (signal : ndarray) (noise_level : R) (seed : Z)
  : rand ndarray :=
  _ <~ np_random_seed seed ;;
  noise <~ np_random_normal 0 noise_level (length signal) ;;
  rand_lift (np_add signal noise).

Definition apply_filter (signal : ndarray) (window_size : pynum) : result ndarray :=
  ones <- np_ones window_size ;;
  np_convolve_same signal (np_divide_scalar ones (pynum_value window_size)).

(** *** Quality metrics *)

Definition calculate_snr (signal noise : ndarray) : npfloat :=
  let signal_power := np_mean (np_square signal) in
  let noise_power := np_mean (np_square noise) in
  if f_gt0 noise_power
  then f_mul (Fin 10) (np_log10 (f_div signal_power noise_power))
  else np_inf.

Record Stats : Type := mkStats {
  st_mean : npfloat;
  st_std : npfloat;
  st_min : npfloat;
  st_max : npfloat;
  st_rms : npfloat;
}.

(** The dictionary is built entry by entry, in order; the report that
    is then printed is not part of the model. *)
Definition calculate_statistics (signal : ndarray) (name : string) : result Stats :=
  let mean := np_mean signal in
  let std := np_std signal in
  mn <- np_min signal ;;
  mx <- np_max signal ;;
  let rms := np_sqrt (np_mean (np_square signal)) in
  Ok {| st_mean := mean; st_std := std; st_min := Fin mn; st_max := Fin mx;
        st_rms := rms |}.

(** *** Main script

    [main] reads [SIGNAL_CONFIG]; [main_with] is its body for any
    configuration.  The arrays and figures it computes are returned as
    a record.  The Fourier transforms, the figure and the printed
    report are not part of the model. *)

Record Analysis : Type := mkAnalysis {
  t : ndarray;
  clean_sine : ndarray;
  clean_square : ndarray;
  clean_sawtooth : ndarray;
  noisy_sine : ndarray;
  noisy_square : ndarray;
  noisy_sawtooth : ndarray;
  filtered_sine : ndarray;
  filtered_square : ndarray;
  filtered_sawtooth : ndarray;
  snr_noisy : npfloat;
  snr_filtered : npfloat;
  stats_clean : Stats;
  stats_noisy : Stats;
  stats_filtered : Stats;
}.

Definition main_with `{GaussStream} `{Binary64} (cfg : Config) : rand Analysis :=
  let freq := frequency cfg in
  let amp := amplitude cfg in
  let duration := duration cfg in
  let sample_rate := sample_rate cfg in
  let noise_level := noise_level cfg in
  let filter_window := filter_window cfg in
  t <~ rand_lift (np_linspace 0 duration (py_int (sample_rate * duration))) ;;
  let clean_sine := generate_sine_wave t freq amp in
  let clean_square := generate_square_wave t freq amp in
  let clean_sawtooth := generate_sawtooth_wave t freq amp in
  noisy_sine <~ add_noise clean_sine noise_level default_seed ;;
  noisy_square <~ add_noise clean_square noise_level default_seed ;;
  noisy_sawtooth <~ add_noise clean_sawtooth noise_level default_seed ;;
  filtered_sine <~ rand_lift (apply_filter noisy_sine filter_window) ;;
  filtered_square <~ rand_lift (apply_filter noisy_square filter_window) ;;
  filtered_sawtooth <~ rand_lift (apply_filter noisy_sawtooth filter_window) ;;
  noise_sine <~ rand_lift (np_subtract noisy_sine clean_sine) ;;
  noise_filtered_sine <~ rand_lift (np_subtract filtered_sine clean_sine) ;;
  let snr_noisy := calculate_snr clean_sine noise_sine in
  let snr_filtered := calculate_snr clean_sine noise_filtered_sine in
  stats_clean <~ rand_lift (calculate_statistics clean_sine "Clean Sine Wave") ;;
  stats_noisy <~ rand_lift (calculate_statistics noisy_sine "Noisy Sine Wave") ;;
  stats_filtered <~ rand_lift (calculate_statistics filtered_sine "Filtered Sine Wave") ;;
  rand_ret
    {| t := t;
       clean_sine := clean_sine;
       clean_square := clean_square;
       clean_sawtooth := clean_sawtooth;
       noisy_sine := noisy_sine;
       noisy_square := noisy_square;
       noisy_sawtooth := noisy_sawtooth;
       filtered_sine := filtered_sine;
       filtered_square := filtered_square;
       filtered_sawtooth := filtered_sawtooth;
       snr_noisy := snr_noisy;
       snr_filtered := snr_filtered;
       stats_clean := stats_clean;
       stats_noisy := stats_noisy;
       stats_filtered := stats_filtered |}.

Definition main `{GaussStream} `{Binary64} : rand Analysis :=
  main_with SIGNAL_CONFIG.

End SignalProcessing.

Export SignalProcessing.

(* ================================================================== *)
(** ** Notions used to state the properties                             *)
(* ================================================================== *)

Module Spec.

(** [f 0 + f 1 + ... + f (n-1)], summed from the left. *)
Definition big_sum (f : nat -> R) (n : nat) : R :=
  fold_left (fun acc k => acc + f k) (seq 0 n) 0.

(** The signal extended by zeros on both sides. *)
Definition sample (s : ndarray) (j : Z) : R :=
  if ((0 <=? j) && (j <? Z.of_nat (length s)))%Z
  then nth (Z.to_nat j) s 0
  else 0.

(** The sum of the [w] zero-extended samples that start at index [lo]. *)
Definition window_sum (s : ndarray) (lo : Z) (w : nat) : R :=
  big_sum (fun k => sample s (lo + Z.of_nat k)) w.

(** The samples [s[i - w/2 .. i + w/2]] that exist. *)
Definition clipped_window (s : ndarray) (w : Z) (i : nat) : ndarray :=
  let half := Z.to_nat (w / 2) in
  let lo := (i - half)%nat in
  let hi := Nat.min (length s - 1) (i + half) in
  firstn (hi - lo + 1) (skipn lo s).

(** The samples [s[i - w/2 .. i - w/2 + w - 1]] that exist: the window
    the convolution in mode 'same' lays over index [i]. *)
Definition same_mode_window (s : ndarray) (w : Z) (i : nat) : ndarray :=
  let left := Z.to_nat (w / 2) in
  let right := (Z.to_nat w - 1 - left)%nat in
  let lo := (i - left)%nat in
  let hi := Nat.min (length s - 1) (i + right) in
  firstn (hi - lo + 1) (skipn lo s).

(** The moving average as the specification words it: each output is
    the arithmetic mean of the clipped window around its index. *)
Definition moving_average_spec (s : ndarray) (w : Z) : ndarray :=
  map (fun i =>
         let win := clipped_window s w i in
         np_sum win / INR (length win))
      (seq 0 (length s)).

(** A call that raises and leaves the generator as it found it. *)
Definition raises_untouched {A} (m : rand A) (st : RandomState) : Prop :=
  exists e, m st = (Raise e, st).

(** A seed the generator accepts. *)
Definition valid_seed (seed : Z) : Prop := (0 <= seed <= 2 ^ 32 - 1)%Z.

(** A stream of variates to run the noise stage on concrete inputs. *)
Definition ramp_stream : GaussStream :=
  fun key k => IZR key + INR k.

(** Arithmetic without rounding, to run the generators on concrete
    inputs. *)
Definition exact_arithmetic : Binary64 :=
  {| np_pi := PI;
     fl_mul := Rmult;
     fl_div := Rdiv;
     fl_sub := Rminus;
     fl_sin := sin;
     fl_mod := fun x m => x - IZR (Int_part (x / m)) * m |}.


End Spec.

Export Spec.

(* ================================================================== *)
(** ** Lists, sums and inner products                                   *)
(* ================================================================== *)

(** Equality of two explicit lists of real expressions, element by
    element. *)
Ltac list_of_reals :=
  repeat (apply f_equal2; [lra|]); reflexivity.

Lemma nth_map_seq (f : nat -> R) (n i : nat) (d : R) :
  (i < n)%nat -> nth i (map f (seq 0 n)) d = f i.
Proof.
  intros Hi.
  rewrite (nth_indep _ d (f 0%nat)) by (rewrite length_map, length_seq; exact Hi).
  rewrite map_nth, seq_nth by exact Hi.
  reflexivity.
Qed.

Lemma big_sum_S (f : nat -> R) (n : nat) :
  big_sum f (S n) = big_sum f n + f n.
Proof.
  unfold big_sum. rewrite seq_S, fold_left_app. reflexivity.
Qed.

Lemma big_sum_ext (f g : nat -> R) (n : nat) :
  (forall k, (k < n)%nat -> f k = g k) -> big_sum f n = big_sum g n.
Proof.
  induction n as [|n IH]; intros H; [reflexivity|].
  rewrite !big_sum_S.
  rewrite IH by (intros k Hk; apply H; lia).
  rewrite H by lia. reflexivity.
Qed.

Lemma big_sum_zero (f : nat -> R) (n : nat) :
  (forall k, (k < n)%nat -> f k = 0) -> big_sum f n = 0.
Proof.
  induction n as [|n IH]; intros H; [reflexivity|].
  rewrite big_sum_S.
  rewrite IH by (intros k Hk; apply H; lia).
  rewrite H by lia. lra.
Qed.

Lemma big_sum_add (f : nat -> R) (n m : nat) :
  big_sum f (n + m) = big_sum f n + big_sum (fun k => f (n + k)%nat) m.
Proof.
  induction m as [|m IH].
  - rewrite Nat.add_0_r. unfold big_sum at 3. simpl. lra.
  - rewrite Nat.add_succ_r, !big_sum_S, IH. lra.
Qed.

Lemma big_sum_scal (f : nat -> R) (c : R) (n : nat) :
  big_sum (fun k => f k * c) n = big_sum f n * c.
Proof.
  induction n as [|n IH].
  - unfold big_sum. simpl. lra.
  - rewrite !big_sum_S, IH. lra.
Qed.

Lemma dot_big_sum (a v : ndarray) (ia iv n : nat) :
  dot a ia v iv n = big_sum (fun k => nth (ia + k) a 0 * nth (iv + k) v 0) n.
Proof. reflexivity. Qed.

Lemma sample_inside (s : ndarray) (j : Z) :
  (0 <= j < Z.of_nat (length s))%Z -> sample s j = nth (Z.to_nat j) s 0.
Proof.
  intros [H0 H1]. unfold sample.
  apply Z.leb_le in H0. apply Z.ltb_lt in H1. rewrite H0, H1. reflexivity.
Qed.

Lemma sample_outside (s : ndarray) (j : Z) :
  (j < 0 \/ Z.of_nat (length s) <= j)%Z -> sample s j = 0.
Proof.
  intros H. unfold sample.
  destruct (Z.leb_spec 0 j); destruct (Z.ltb_spec j (Z.of_nat (length s)));
    simpl; try reflexivity; lia.
Qed.

(** *** [correlate] in mode 'same' *)

Lemma correlate_same_length (ap1 ap2 : ndarray) :
  (1 <= length ap2 <= length ap1)%nat ->
  length (correlate_same ap1 ap2) = length ap1.
Proof.
  intros H. unfold correlate_same.
  rewrite !length_app, !length_map, !length_seq.
  pose proof (Nat.div_lt (length ap2) 2). lia.
Qed.

(** With a constant second operand every output is the constant times
    the sum of the zero-extended window that starts [n2 / 2] places to
    the left of the output's index. *)
Lemma correlate_same_uniform (ap1 ap2 : ndarray) (c : R) (i : nat) :
  (1 <= length ap2 <= length ap1)%nat ->
  (forall k, (k < length ap2)%nat -> nth k ap2 0 = c) ->
  (i < length ap1)%nat ->
  nth i (correlate_same ap1 ap2) 0 =
  window_sum ap1 (Z.of_nat i - Z.of_nat (length ap2 / 2)) (length ap2) * c.
Proof.
  intros Hlen Hc Hi.
  unfold correlate_same, window_sum.
  set (n1 := length ap1) in *. set (n2 := length ap2) in *.
  set (nl := (n2 / 2)%nat).
  assert (Hnl : (nl < n2)%nat) by (apply Nat.div_lt; lia).
  destruct (Nat.lt_ge_cases i nl) as [Hl|Hl].
  - (* ramp-up *)
    rewrite app_nth1 by (rewrite length_map, length_seq; exact Hl).
    rewrite nth_map_seq by exact Hl.
    rewrite dot_big_sum.
    rewrite (big_sum_ext _ (fun k => nth k ap1 0 * c)).
    2:{ intros k Hk. simpl. rewrite Hc by (fold n2; lia). reflexivity. }
    rewrite big_sum_scal. f_equal.
    transitivity
      (big_sum (fun k => sample ap1 (Z.of_nat i - Z.of_nat nl + Z.of_nat k))
               ((nl - i) + (n2 - nl + i))); [|f_equal; lia].
    rewrite (big_sum_add (fun k => sample ap1 _)).
    rewrite (big_sum_zero (fun k => sample ap1 _)), Rplus_0_l.
    2:{ intros k Hk. apply sample_outside. lia. }
    apply big_sum_ext. intros k Hk.
    rewrite sample_inside by (fold n1; lia).
    f_equal. lia.
  - destruct (Nat.lt_ge_cases i (nl + (n1 - n2 + 1))) as [Hm|Hm].
    + (* full windows *)
      rewrite app_nth2 by (rewrite length_map, length_seq; exact Hl).
      rewrite length_map, length_seq.
      rewrite app_nth1 by (rewrite length_map, length_seq; lia).
      rewrite nth_map_seq by lia.
      rewrite dot_big_sum.
      rewrite (big_sum_ext _ (fun k => nth (i - nl + k) ap1 0 * c)).
      2:{ intros k Hk. simpl. rewrite Hc by (fold n2; lia). reflexivity. }
      rewrite big_sum_scal. f_equal.
      apply big_sum_ext. intros k Hk.
      rewrite sample_inside by (fold n1; lia).
      f_equal. lia.
    + (* ramp-down *)
      rewrite app_nth2 by (rewrite length_map, length_seq; exact Hl).
      rewrite length_map, length_seq.
      rewrite app_nth2 by (rewrite length_map, length_seq; lia).
      rewrite length_map, length_seq.
      set (j := (i - nl - (n1 - n2 + 1))%nat).
      assert (Hj : (j < n2 - nl - 1)%nat) by (unfold j; lia).
      rewrite nth_map_seq by exact Hj.
      rewrite dot_big_sum.
      rewrite (big_sum_ext _ (fun k => nth (n1 - n2 + 1 + j + k) ap1 0 * c)).
      2:{ intros k Hk. simpl. rewrite Hc by (fold n2; lia). reflexivity. }
      rewrite big_sum_scal. f_equal.
      transitivity
        (big_sum (fun k => sample ap1 (Z.of_nat i - Z.of_nat nl + Z.of_nat k))
                 ((n2 - 1 - j) + (1 + j))); [|f_equal; lia].
      rewrite (big_sum_add (fun k => sample ap1 _)).
      rewrite (big_sum_zero _ (1 + j)), Rplus_0_r.
      2:{ intros k Hk. apply sample_outside. fold n1. unfold j. lia. }
      apply big_sum_ext. intros k Hk.
      rewrite sample_inside by (fold n1; unfold j; lia).
      f_equal. unfold j. lia.
Qed.

(** *** [apply_filter] *)

Lemma apply_filter_int (s : ndarray) (w : Z) :
  (0 <= w)%Z ->
  apply_filter s (PyInt w) = np_convolve_same s (repeat (1 / IZR w) (Z.to_nat w)).
Proof.
  intros Hw. unfold apply_filter, np_ones.
  destruct (Z.ltb_spec w 0); [lia|].
  simpl. unfold np_divide_scalar. rewrite map_repeat. reflexivity.
Qed.

(** On a non-empty signal and a window of at least one sample the
    filter returns, and the output is as long as the longer of the
    signal and the window. *)
Lemma apply_filter_returns (s : ndarray) (w : Z) :
  s <> [] -> (1 <= w)%Z ->
  exists out, apply_filter s (PyInt w) = Ok out
              /\ length out = Nat.max (length s) (Z.to_nat w).
Proof.
  intros Hs Hw.
  rewrite apply_filter_int by lia.
  unfold np_convolve_same.
  assert (Hn : (1 <= length s)%nat) by (destruct s; [congruence|simpl; lia]).
  rewrite repeat_length.
  destruct (Nat.ltb_spec (length s) (Z.to_nat w)) as [Hlt|Hge].
  - rewrite repeat_length.
    destruct (Nat.eqb_spec (Z.to_nat w) 0); [lia|].
    destruct (Nat.eqb_spec (length s) 0); [lia|].
    eexists; split; [reflexivity|].
    rewrite correlate_same_length by (rewrite length_rev, repeat_length; lia).
    rewrite repeat_length. lia.
  - destruct (Nat.eqb_spec (length s) 0); [lia|].
    rewrite repeat_length.
    destruct (Nat.eqb_spec (Z.to_nat w) 0); [lia|].
    eexists; split; [reflexivity|].
    rewrite correlate_same_length by (rewrite length_rev, repeat_length; lia).
    lia.
Qed.

(** For a window no longer than the signal, each output is the sum of
    the [w] zero-extended samples from index [i - w/2] on, divided by
    [w]. *)
Lemma apply_filter_nth (s : ndarray) (w : Z) :
  (1 <= w <= Z.of_nat (length s))%Z ->
  exists out, apply_filter s (PyInt w) = Ok out
              /\ length out = length s
              /\ forall i, (i < length s)%nat ->
                   nth i out 0 =
                   window_sum s (Z.of_nat i - w / 2) (Z.to_nat w) / IZR w.
Proof.
  intros Hw.
  rewrite apply_filter_int by lia.
  unfold np_convolve_same. rewrite repeat_length.
  destruct (Nat.ltb_spec (length s) (Z.to_nat w)) as [Hlt|Hge]; [lia|].
  destruct (Nat.eqb_spec (length s) 0); [lia|].
  rewrite repeat_length.
  destruct (Nat.eqb_spec (Z.to_nat w) 0); [lia|].
  rewrite rev_repeat.
  eexists; split; [reflexivity|]. split.
  - apply correlate_same_length. rewrite repeat_length. lia.
  - intros i Hi.
    rewrite (correlate_same_uniform s _ (1 / IZR w)).
    + rewrite repeat_length, Nat2Z.inj_div, Z2Nat.id by lia.
      change (Z.of_nat 2) with 2%Z. unfold Rdiv. ring.
    + rewrite repeat_length. lia.
    + intros k Hk. rewrite repeat_length in Hk. apply nth_repeat_lt. exact Hk.
    + exact Hi.
Qed.

(** *** The window as a slice of the signal *)

Lemma big_sum_S_l (f : nat -> R) (n : nat) :
  big_sum f (S n) = f 0%nat + big_sum (fun k => f (S k)) n.
Proof.
  change (S n) with (1 + n)%nat. rewrite big_sum_add.
  unfold big_sum at 1. simpl. ring.
Qed.

Lemma np_sum_cons_fold (x : R) (l : ndarray) :
  fold_left Rplus l x = x + np_sum l.
Proof.
  unfold np_sum. revert x. induction l as [|y l IH]; intros x; simpl.
  - ring.
  - rewrite IH, (IH (0 + y)). ring.
Qed.

Lemma np_sum_big_sum (l : ndarray) :
  np_sum l = big_sum (fun k => nth k l 0) (length l).
Proof.
  induction l as [|x l IH].
  - reflexivity.
  - simpl length. rewrite big_sum_S_l. simpl nth.
    rewrite <- IH. unfold np_sum at 1. simpl.
    rewrite np_sum_cons_fold. ring.
Qed.

Lemma np_sum_slice (s : ndarray) (lo m : nat) :
  (lo + m <= length s)%nat ->
  np_sum (firstn m (skipn lo s)) = big_sum (fun k => nth (lo + k) s 0) m.
Proof.
  intros H. rewrite np_sum_big_sum.
  assert (L : length (firstn m (skipn lo s)) = m)
    by (rewrite length_firstn, length_skipn; lia).
  rewrite L. apply big_sum_ext. intros k Hk.
  rewrite nth_firstn. destruct (Nat.ltb_spec k m); [|lia].
  apply nth_skipn.
Qed.

(** The zero-extended window sum is the sum of the samples of the
    window that exist. *)
Lemma window_sum_same_mode (s : ndarray) (w : Z) (i : nat) :
  (1 <= w <= Z.of_nat (length s))%Z -> (i < length s)%nat ->
  window_sum s (Z.of_nat i - w / 2) (Z.to_nat w) = np_sum (same_mode_window s w i).
Proof.
  intros Hw Hi. unfold same_mode_window, window_sum. cbv zeta.
  assert (Hhalf : (0 <= w / 2 < w)%Z)
    by (split; [apply Z.div_pos; lia|apply Z.div_lt_upper_bound; lia]).
  set (nl := Z.to_nat (w / 2)). set (n2 := Z.to_nat w).
  assert (Hnl : (nl < n2)%nat) by (apply Z2Nat.inj_lt; lia).
  assert (Hn2 : (1 <= n2 <= length s)%nat) by (unfold n2; lia).
  assert (E : (w / 2)%Z = Z.of_nat nl) by (unfold nl; rewrite Z2Nat.id; lia).
  rewrite E. clearbody nl n2. clear E Hw Hhalf w.
  set (lo := (i - nl)%nat).
  set (hi := Nat.min (length s - 1) (i + (n2 - 1 - nl))).
  set (z := (nl - i)%nat).
  set (m := (hi - lo + 1)%nat).
  assert (Hsplit : n2 = (z + (m + (n2 - z - m)))%nat)
    by (unfold z, m, hi, lo; lia).
  rewrite np_sum_slice by (unfold m, hi, lo; lia).
  rewrite Hsplit at 1. rewrite big_sum_add, big_sum_add.
  rewrite (big_sum_zero _ z), Rplus_0_l.
  2:{ intros k Hk. apply sample_outside. unfold z in *. lia. }
  rewrite (big_sum_zero _ (_ - _ - _)), Rplus_0_r.
  2:{ intros k Hk. apply sample_outside. unfold z, m, hi, lo in *. lia. }
  apply big_sum_ext. intros k Hk.
  rewrite sample_inside by (unfold z, m, hi, lo in *; lia).
  f_equal. unfold z, lo. lia.
Qed.

(** *** [add_noise] *)

Lemma map2_length (f : R -> R -> R) (a b : ndarray) :
  length a = length b -> length (map2 f a b) = length a.
Proof.
  revert b. induction a as [|x a IH]; intros [|y b] H; simpl in *; try lia.
  rewrite IH by lia. reflexivity.
Qed.

Lemma broadcast2_same_length (f : R -> R -> R) (a b : ndarray) :
  length a = length b -> broadcast2 f a b = Ok (map2 f a b).
Proof.
  intros H. unfold broadcast2. rewrite H, Nat.eqb_refl. reflexivity.
Qed.

Lemma map2_minus_plus (a b : ndarray) :
  length a = length b -> map2 Rminus (map2 Rplus a b) a = b.
Proof.
  revert b. induction a as [|x a IH]; intros [|y b] H; simpl in *; try lia.
  - reflexivity.
  - rewrite IH by lia. f_equal. ring.
Qed.

Lemma map2_plus_zeros (a : ndarray) :
  map2 Rplus a (repeat 0 (length a)) = a.
Proof.
  induction a as [|x a IH]; simpl; [reflexivity|].
  rewrite IH. f_equal. ring.
Qed.

Lemma valid_seed_test (seed : Z) :
  valid_seed seed -> ((0 <=? seed) && (seed <=? 2 ^ 32 - 1))%Z = true.
Proof.
  intros [H0 H1]. apply andb_true_intro. split; apply Z.leb_le; assumption.
Qed.

Lemma invalid_seed_test (seed : Z) :
  ~ valid_seed seed -> ((0 <=? seed) && (seed <=? 2 ^ 32 - 1))%Z = false.
Proof.
  intros H. apply not_true_is_false. intros E.
  apply andb_prop in E. destruct E as [E0 E1].
  apply Z.leb_le in E0. apply Z.leb_le in E1. apply H. split; assumption.
Qed.

Lemma valid_seed_dec (seed : Z) : {valid_seed seed} + {~ valid_seed seed}.
Proof.
  unfold valid_seed.
  destruct (Z_le_dec 0 seed); destruct (Z_le_dec seed (2 ^ 32 - 1));
    (left; lia) || (right; lia).
Qed.

(** The noise that [add_noise] draws after seeding with [seed]. *)
Lemma add_noise_valid `{GaussStream} (s : ndarray) (level : R) (seed : Z)
      (st : RandomState) :
  valid_seed seed -> 0 <= level ->
  add_noise s level seed st =
  (Ok (map2 Rplus s
         (map (fun k => 0 + level * gauss seed (0 + k)) (seq 0 (length s)))),
   mkRandomState seed (0 + length s)).
Proof.
  intros Hseed Hlevel.
  unfold add_noise, rand_bind, np_random_seed, np_random_normal, rand_lift.
  rewrite valid_seed_test by exact Hseed.
  destruct (Rlt_dec level 0) as [Hneg|_]; [lra|].
  simpl rs_key. simpl rs_pos.
  unfold np_add.
  rewrite broadcast2_same_length by (rewrite length_map, length_seq; reflexivity).
  reflexivity.
Qed.

Lemma add_noise_negative_level `{GaussStream} (s : ndarray) (level : R) (seed : Z)
      (st : RandomState) :
  valid_seed seed -> level < 0 ->
  add_noise s level seed st = (Raise ValueError, mkRandomState seed 0).
Proof.
  intros Hseed Hlevel.
  unfold add_noise, rand_bind, np_random_seed, np_random_normal.
  rewrite valid_seed_test by exact Hseed.
  destruct (Rlt_dec level 0) as [_|Hpos]; [reflexivity|lra].
Qed.

Lemma add_noise_invalid_seed `{GaussStream} (s : ndarray) (level : R) (seed : Z)
      (st : RandomState) :
  ~ valid_seed seed ->
  add_noise s level seed st = (Raise ValueError, st).
Proof.
  intros Hseed.
  unfold add_noise, rand_bind, np_random_seed.
  rewrite invalid_seed_test by exact Hseed. reflexivity.
Qed.

Lemma add_noise_length `{GaussStream} (s : ndarray) (level : R) (seed : Z)
      (st : RandomState) :
  valid_seed seed -> 0 <= level ->
  exists out st', add_noise s level seed st = (Ok out, st')
                  /\ length out = length s.
Proof.
  intros Hseed Hlevel. rewrite add_noise_valid by assumption.
  eexists; eexists; split; [reflexivity|].
  apply map2_length. rewrite length_map, length_seq. reflexivity.
Qed.

(** *** Sums, means and powers *)

Lemma np_sum_cons (x : R) (l : ndarray) : np_sum (x :: l) = x + np_sum l.
Proof.
  unfold np_sum at 1. simpl. rewrite np_sum_cons_fold. ring.
Qed.

Lemma np_sum_square_nonneg (l : ndarray) : 0 <= np_sum (np_square l).
Proof.
  induction l as [|x l IH].
  - unfold np_sum. simpl. lra.
  - simpl. rewrite np_sum_cons. nra.
Qed.

Lemma np_sum_square_zero_iff (l : ndarray) :
  np_sum (np_square l) = 0 <-> Forall (fun x => x = 0) l.
Proof.
  induction l as [|x l IH].
  - split; [constructor|reflexivity].
  - simpl. rewrite np_sum_cons.
    pose proof (np_sum_square_nonneg l) as Hl.
    split.
    + intros E. constructor; [nra|]. apply IH. nra.
    + intros HF. inversion HF as [|? ? Hx Hrest]; subst.
      apply IH in Hrest. rewrite Hrest. ring.
Qed.

Lemma INR_length_pos (l : ndarray) : l <> [] -> 0 < INR (length l).
Proof.
  intros H. destruct l as [|x l]; [congruence|].
  apply lt_0_INR. simpl. lia.
Qed.

Lemma np_mean_nonempty (l : ndarray) :
  l <> [] -> np_mean l = Fin (np_sum l / INR (length l)).
Proof.
  intros H. destruct l; [congruence|reflexivity].
Qed.

Lemma mean_square_nonneg (l : ndarray) :
  l <> [] -> 0 <= np_sum (np_square l) / INR (length l).
Proof.
  intros H.
  pose proof (np_sum_square_nonneg l). pose proof (INR_length_pos l H).
  apply Rmult_le_pos; [assumption|].
  apply Rlt_le, Rinv_0_lt_compat. assumption.
Qed.

Lemma length_np_square (l : ndarray) : length (np_square l) = length l.
Proof. apply length_map. Qed.

Lemma np_square_nonempty (l : ndarray) : l <> [] -> np_square l <> [].
Proof. destruct l; [congruence|discriminate]. Qed.

(** The root of the mean square of a non-empty array is a number. *)
Lemma rms_finite (l : ndarray) :
  l <> [] ->
  np_sqrt (np_mean (np_square l)) =
  Fin (sqrt (np_sum (np_square l) / INR (length l))).
Proof.
  intros H.
  rewrite np_mean_nonempty by (apply np_square_nonempty; exact H).
  unfold np_square at 2. rewrite length_map. simpl.
  pose proof (mean_square_nonneg l H).
  destruct (Rlt_dec _ 0); [lra|reflexivity].
Qed.

(** *** [int()] and [np.linspace] *)

Lemma py_int_IZR (z : Z) : py_int (IZR z) = z.
Proof.
  unfold py_int. destruct (Rle_dec 0 (IZR z)) as [H|H].
  - symmetry. apply Int_part_spec. lra.
  - rewrite <- opp_IZR. rewrite <- (Int_part_spec (IZR (- z)) (- z)) by lra. lia.
Qed.

(** On a non-negative float [int()] is the floor. *)
Lemma py_int_floor (x : R) :
  0 <= x -> IZR (py_int x) <= x < IZR (py_int x) + 1.
Proof.
  intros H. unfold py_int. destruct (Rle_dec 0 x) as [_|N]; [|contradiction].
  pose proof (base_Int_part x). lra.
Qed.


Lemma set_last_length (y : ndarray) (v : R) : length (set_last y v) = length y.
Proof.
  destruct y as [|x y]; [reflexivity|].
  unfold set_last. rewrite length_app, removelast_firstn_len, length_firstn.
  simpl. lia.
Qed.

Lemma set_last_nth_last (y : ndarray) (v : R) :
  y <> [] -> nth (length y - 1) (set_last y v) 0 = v.
Proof.
  intros H. destruct y as [|x y]; [congruence|].
  unfold set_last. rewrite app_nth2; rewrite removelast_firstn_len, length_firstn.
  - replace (_ - _)%nat with 0%nat by (simpl; lia). reflexivity.
  - simpl. lia.
Qed.

Lemma set_last_nth_before (y : ndarray) (v : R) (i : nat) :
  (i < length y - 1)%nat -> nth i (set_last y v) 0 = nth i y 0.
Proof.
  intros H. destruct y as [|x y]; [simpl in H; lia|].
  unfold set_last. rewrite removelast_firstn_len.
  rewrite app_nth1 by (rewrite length_firstn; simpl in *; lia).
  rewrite nth_firstn.
  destruct (Nat.ltb_spec i (Nat.pred (length (x :: y)))); [reflexivity|].
  simpl in *. lia.
Qed.

Lemma np_linspace_unfold (start stop : R) (num : Z) :
  (2 <= num)%Z ->
  np_linspace start stop num =
  Ok (set_last
        (map (fun k => INR k * ((stop - start) / IZR (num - 1)) + start)
             (seq 0 (Z.to_nat num)))
        stop).
Proof.
  intros H. unfold np_linspace.
  destruct (Z.ltb_spec num 0); [lia|].
  destruct (Z.ltb_spec 0 (num - 1)); [|lia].
  destruct (Z.ltb_spec 1 num); [|lia].
  cbv zeta. unfold np_arange.
  assert (Hd : IZR (num - 1) <> 0) by (apply not_0_IZR; lia).
  destruct (Req_dec_T _ 0); rewrite !map_map; do 2 f_equal.
  apply map_ext. intros k. field. exact Hd.
Qed.

(** With at least two samples, [np.linspace] steps by
    [(stop - start) / (num - 1)] and ends on [stop] itself. *)
Lemma np_linspace_samples (start stop : R) (num : Z) :
  (2 <= num)%Z ->
  exists y, np_linspace start stop num = Ok y
            /\ length y = Z.to_nat num
            /\ (forall i, (i < Z.to_nat num - 1)%nat ->
                  nth i y 0 = start + INR i * ((stop - start) / IZR (num - 1)))
            /\ nth (Z.to_nat num - 1) y 0 = stop.
Proof.
  intros H. rewrite np_linspace_unfold by exact H.
  eexists; split; [reflexivity|].
  set (y := map _ _).
  assert (Hy : length y = Z.to_nat num)
    by (unfold y; rewrite length_map, length_seq; reflexivity).
  rewrite set_last_length. split; [exact Hy|]. split.
  - intros i Hi. rewrite set_last_nth_before by lia.
    unfold y. rewrite nth_map_seq by lia. ring.
  - rewrite <- Hy. apply set_last_nth_last.
    intros E. rewrite E in Hy. simpl in Hy. lia.
Qed.

Lemma np_linspace_length (start stop : R) (num : Z) :
  (0 <= num)%Z ->
  exists y, np_linspace start stop num = Ok y /\ length y = Z.to_nat num.
Proof.
  intros H. unfold np_linspace.
  destruct (Z.ltb_spec num 0); [lia|].
  eexists; split; [reflexivity|]. cbv zeta.
  assert (E : forall y v, length (if (1 <? num)%Z then set_last y v else y) = length y)
    by (intros; destruct (1 <? num)%Z; [apply set_last_length|reflexivity]).
  rewrite E, length_map.
  destruct (0 <? num - 1)%Z; [destruct (Req_dec_T _ 0)|];
    rewrite length_map; unfold np_arange; rewrite length_map, length_seq;
    reflexivity.
Qed.

(** *** [calculate_statistics] *)

Lemma fold_left_Rmin_spec (l : ndarray) (x : R) :
  In (fold_left Rmin l x) (x :: l)
  /\ Forall (fun y => fold_left Rmin l x <= y) (x :: l).
Proof.
  revert x. induction l as [|y l IH]; intros x; simpl.
  - split; [left; reflexivity|]. constructor; [lra|constructor].
  - destruct (IH (Rmin x y)) as [Hin Hle]. split.
    + destruct Hin as [E|Hin].
      * rewrite <- E. unfold Rmin. destruct (Rle_dec x y); auto.
      * right; right; exact Hin.
    + inversion Hle as [|? ? Hm Hrest]; subst.
      pose proof (Rmin_l x y). pose proof (Rmin_r x y).
      constructor; [lra|]. constructor; [lra|exact Hrest].
Qed.

Lemma fold_left_Rmax_spec (l : ndarray) (x : R) :
  In (fold_left Rmax l x) (x :: l)
  /\ Forall (fun y => y <= fold_left Rmax l x) (x :: l).
Proof.
  revert x. induction l as [|y l IH]; intros x; simpl.
  - split; [left; reflexivity|]. constructor; [lra|constructor].
  - destruct (IH (Rmax x y)) as [Hin Hle]. split.
    + destruct Hin as [E|Hin].
      * rewrite <- E. unfold Rmax. destruct (Rle_dec x y); auto.
      * right; right; exact Hin.
    + inversion Hle as [|? ? Hm Hrest]; subst.
      pose proof (Rmax_l x y). pose proof (Rmax_r x y).
      constructor; [lra|]. constructor; [lra|exact Hrest].
Qed.

Lemma np_std_nonempty (l : ndarray) :
  l <> [] ->
  np_std l =
  Fin (sqrt (np_sum (np_square (map (fun x => x - np_sum l / INR (length l)) l))
             / INR (length l))).
Proof.
  intros H. unfold np_std. rewrite np_mean_nonempty by exact H.
  rewrite rms_finite by (destruct l; [congruence|discriminate]).
  rewrite length_map. reflexivity.
Qed.

Lemma calculate_statistics_nonempty (x : R) (l : ndarray) (name : string) :
  calculate_statistics (x :: l) name =
  Ok {| st_mean := Fin (np_sum (x :: l) / INR (length (x :: l)));
        st_std :=
          Fin (sqrt (np_sum (np_square
                               (map (fun y => y - np_sum (x :: l) / INR (length (x :: l)))
                                    (x :: l)))
                     / INR (length (x :: l))));
        st_min := Fin (fold_left Rmin l x);
        st_max := Fin (fold_left Rmax l x);
        st_rms := Fin (sqrt (np_sum (np_square (x :: l)) / INR (length (x :: l)))) |}.
Proof.
  unfold calculate_statistics.
  rewrite np_std_nonempty, rms_finite by discriminate.
  reflexivity.
Qed.

Lemma calculate_statistics_returns (l : ndarray) (name : string) :
  l <> [] -> exists s, calculate_statistics l name = Ok s.
Proof.
  intros H. destruct l as [|x l]; [congruence|].
  rewrite calculate_statistics_nonempty. eexists; reflexivity.
Qed.

(** *** The main script *)

Lemma rand_bind_ok {A B} (m : rand A) (k : A -> rand B) (st st' : RandomState) (a : A) :
  m st = (Ok a, st') -> rand_bind m k st = k a st'.
Proof. intros E. unfold rand_bind. rewrite E. reflexivity. Qed.

Lemma rand_bind_lift_ok {A B} (r : result A) (k : A -> rand B) (st : RandomState) (a : A) :
  r = Ok a -> rand_bind (rand_lift r) k st = k a st.
Proof. intros E. subst r. reflexivity. Qed.

Lemma valid_default_seed : valid_seed default_seed.
Proof. unfold valid_seed, default_seed. lia. Qed.

Lemma length_generate_sine_wave (ts : ndarray) (f a : R) :
  length (generate_sine_wave ts f a) = length ts.
Proof. unfold generate_sine_wave. apply length_map. Qed.

Lemma length_generate_square_wave `{Binary64} (ts : ndarray) (f a : R) :
  length (generate_square_wave ts f a) = length ts.
Proof. unfold generate_square_wave. apply length_map. Qed.

Lemma length_generate_sawtooth_wave `{Binary64} (ts : ndarray) (f a : R) :
  length (generate_sawtooth_wave ts f a) = length ts.
Proof. unfold generate_sawtooth_wave. rewrite !length_map. reflexivity. Qed.

Lemma length_pos_nonempty (l : ndarray) : (0 < length l)%nat -> l <> [].
Proof. destruct l; simpl; [lia|discriminate]. Qed.

(** With a non-negative noise level and an integer window between one
    sample and the length of the time base, the script runs through, and
    every array it builds is as long as the time base. *)
Lemma main_with_returns `{GaussStream} `{Binary64}
      (cfg : Config) (w : Z) (st : RandomState) :
  0 <= sample_rate cfg * duration cfg ->
  0 <= noise_level cfg ->
  filter_window cfg = PyInt w ->
  (1 <= w <= py_int (sample_rate cfg * duration cfg))%Z ->
  exists a st',
    main_with cfg st = (Ok a, st')
    /\ np_linspace 0 (duration cfg) (py_int (sample_rate cfg * duration cfg)) = Ok (t a)
    /\ length (t a) = Z.to_nat (py_int (sample_rate cfg * duration cfg))
    /\ Forall (fun s => length s = length (t a))
         [clean_sine a; clean_square a; clean_sawtooth a;
          noisy_sine a; noisy_square a; noisy_sawtooth a;
          filtered_sine a; filtered_square a; filtered_sawtooth a].
Proof.
  intros Hprod Hlevel Hwin Hw.
  set (N := py_int (sample_rate cfg * duration cfg)) in *.
  destruct (np_linspace_length 0 (duration cfg) N) as (ts & Hts & Hlen); [lia|].
  assert (Hpos : (0 < length ts)%nat) by lia.
  unfold main_with. cbv zeta. fold N. rewrite Hwin.
  rewrite (rand_bind_lift_ok _ _ _ _ Hts).
  set (cs := generate_sine_wave ts (frequency cfg) (amplitude cfg)).
  set (cq := generate_square_wave ts (frequency cfg) (amplitude cfg)).
  set (cw := generate_sawtooth_wave ts (frequency cfg) (amplitude cfg)).
  assert (Lcs : length cs = length ts) by apply length_generate_sine_wave.
  assert (Lcq : length cq = length ts) by apply length_generate_square_wave.
  assert (Lcw : length cw = length ts) by apply length_generate_sawtooth_wave.
  destruct (add_noise_length cs (noise_level cfg) default_seed st
              valid_default_seed Hlevel) as (ns & st1 & Ens & Lns).
  rewrite (rand_bind_ok _ _ _ _ _ Ens).
  destruct (add_noise_length cq (noise_level cfg) default_seed st1
              valid_default_seed Hlevel) as (nq & st2 & Enq & Lnq).
  rewrite (rand_bind_ok _ _ _ _ _ Enq).
  destruct (add_noise_length cw (noise_level cfg) default_seed st2
              valid_default_seed Hlevel) as (nw & st3 & Enw & Lnw).
  rewrite (rand_bind_ok _ _ _ _ _ Enw).
  destruct (apply_filter_returns ns w) as (fs & Efs & Lfs);
    [apply length_pos_nonempty; lia|lia|].
  rewrite (rand_bind_lift_ok _ _ _ _ Efs).
  destruct (apply_filter_returns nq w) as (fq & Efq & Lfq);
    [apply length_pos_nonempty; lia|lia|].
  rewrite (rand_bind_lift_ok _ _ _ _ Efq).
  destruct (apply_filter_returns nw w) as (fw & Efw & Lfw);
    [apply length_pos_nonempty; lia|lia|].
  rewrite (rand_bind_lift_ok _ _ _ _ Efw).
  unfold np_subtract.
  rewrite (rand_bind_lift_ok _ _ _ _ (broadcast2_same_length Rminus ns cs ltac:(lia))).
  rewrite (rand_bind_lift_ok _ _ _ _ (broadcast2_same_length Rminus fs cs ltac:(lia))).
  destruct (calculate_statistics_returns cs "Clean Sine Wave") as (s1 & Es1);
    [apply length_pos_nonempty; lia|].
  rewrite (rand_bind_lift_ok _ _ _ _ Es1).
  destruct (calculate_statistics_returns ns "Noisy Sine Wave") as (s2 & Es2);
    [apply length_pos_nonempty; lia|].
  rewrite (rand_bind_lift_ok _ _ _ _ Es2).
  destruct (calculate_statistics_returns fs "Filtered Sine Wave") as (s3 & Es3);
    [apply length_pos_nonempty; lia|].
  rewrite (rand_bind_lift_ok _ _ _ _ Es3).
  unfold rand_ret.
  eexists; eexists; split; [reflexivity|]. simpl.
  split; [exact Hts|]. split; [exact Hlen|].
  repeat constructor; lia.
Qed.

(* ================================================================== *)
(** ** The smoothing filter                                             *)
(* ================================================================== *)

(** C1, as stated, fails.  On [[3; 3; 3]] with window 3 the first output
    is [(0 + 3 + 3) / 3 = 2], the sum of the two available samples
    divided by the full window length, where the mean of the available
    samples is 3.  On [[1; 2; 3; 4]] with the even window 2 the output at
    index 1 is the mean of [s[0..1]], not of [s[0..2]].  On the one-sample
    signal [[6]] with window 3 there are three outputs. *)
Lemma apply_filter_edge_not_clipped_mean :
  apply_filter [3; 3; 3] (PyInt 3) = Ok [2; 3; 2]
  /\ moving_average_spec [3; 3; 3] 3 = [3; 3; 3]
  /\ apply_filter [1; 2; 3; 4] (PyInt 2) = Ok [1 / 2; 3 / 2; 5 / 2; 7 / 2]
  /\ moving_average_spec [1; 2; 3; 4] 2 = [3 / 2; 2; 3; 7 / 2]
  /\ apply_filter [6] (PyInt 3) = Ok [2; 2; 2]
  /\ apply_filter [3; 3; 3] (PyInt 3) <> Ok (moving_average_spec [3; 3; 3] 3).
Proof.
  assert (E1 : apply_filter [3; 3; 3] (PyInt 3) = Ok [2; 3; 2]).
  { unfold apply_filter, np_convolve_same, correlate_same, dot. simpl.
    apply f_equal. list_of_reals. }
  assert (E2 : moving_average_spec [3; 3; 3] 3 = [3; 3; 3]).
  { unfold moving_average_spec, clipped_window, np_sum. simpl.
    list_of_reals. }
  repeat split.
  - exact E1.
  - exact E2.
  - unfold apply_filter, np_convolve_same, correlate_same, dot. simpl.
    apply f_equal. list_of_reals.
  - unfold moving_average_spec, clipped_window, np_sum. simpl.
    list_of_reals.
  - unfold apply_filter, np_convolve_same, correlate_same, dot. simpl.
    apply f_equal. list_of_reals.
  - rewrite E1, E2. intros E. injection E as E. lra.
Qed.

(** C1, amended.  For a window [1 <= w <= len(signal)], [apply_filter]
    returns a signal of the input's length in which [output[i]] is the
    sum of the input samples in the window
    [input[i - w/2 .. i - w/2 + w - 1]] clipped to the array bounds,
    divided by the full window length [w]: samples beyond the edges
    count as zero. *)
Theorem apply_filter_zero_padded_mean (signal : ndarray) (w : Z) :
  (1 <= w <= Z.of_nat (length signal))%Z ->
  exists out,
    apply_filter signal (PyInt w) = Ok out
    /\ length out = length signal
    /\ forall i, (i < length signal)%nat ->
         nth i out 0 = np_sum (same_mode_window signal w i) / IZR w
         /\ nth i out 0 =
            window_sum signal (Z.of_nat i - w / 2) (Z.to_nat w) / IZR w.
Proof.
  intros Hw.
  destruct (apply_filter_nth signal w Hw) as (out & E & L & Hnth).
  exists out. split; [exact E|]. split; [exact L|].
  intros i Hi. rewrite (Hnth i Hi). split; [|reflexivity].
  rewrite window_sum_same_mode by assumption. reflexivity.
Qed.

Lemma apply_filter_zero_padded_mean_witness :
  (1 <= 3 <= Z.of_nat (length [3; 3; 3]))%Z
  /\ exists out,
       apply_filter [3; 3; 3] (PyInt 3) = Ok out
       /\ length out = length [3; 3; 3]
       /\ forall i, (i < length [3; 3; 3])%nat ->
            nth i out 0 = np_sum (same_mode_window [3; 3; 3] 3 i) / IZR 3
            /\ nth i out 0 =
               window_sum [3; 3; 3] (Z.of_nat i - 3 / 2) (Z.to_nat 3) / IZR 3.
Proof.
  split; [simpl; lia|].
  apply (apply_filter_zero_padded_mean [3; 3; 3] 3). simpl. lia.
Defined.




(** C9, as stated, fails on the empty signal: [np.convolve] refuses an
    empty operand. *)
Lemma apply_filter_window_one_empty :
  apply_filter [] (PyInt 1) = Raise ValueError.
Proof. reflexivity. Qed.

(** C9, amended.  On every non-empty signal the filter with window 1 is
    the identity. *)
Theorem apply_filter_window_one (signal : ndarray) :
  signal <> [] -> apply_filter signal (PyInt 1) = Ok signal.
Proof.
  intros Hs.
  assert (Hn : (1 <= length signal)%nat)
    by (destruct signal; [congruence|simpl; lia]).
  destruct (apply_filter_nth signal 1) as (out & E & L & Hnth); [lia|].
  rewrite E. f_equal.
  apply (nth_ext _ _ 0 0 L). intros i Hi. rewrite L in Hi.
  rewrite Hnth by exact Hi.
  unfold window_sum, big_sum. simpl.
  change (1 / 2)%Z with 0%Z.
  rewrite sample_inside by lia.
  replace (Z.to_nat (Z.of_nat i - 0 + 0)) with i by lia.
  field.
Qed.

Lemma apply_filter_window_one_witness :
  [4; 5; 6] <> [] /\ apply_filter [4; 5; 6] (PyInt 1) = Ok [4; 5; 6].
Proof.
  assert (Hs : [4; 5; 6] <> []) by discriminate.
  split; [exact Hs|]. exact (apply_filter_window_one [4; 5; 6] Hs).
Defined.

(* ================================================================== *)
(** ** The time base                                                    *)
(* ================================================================== *)

(** The sample count is the floor of [duration * sample_rate], the first
    sample is [0], the spacing is [duration / (N - 1)], and the last
    sample is [duration] itself: the series covers the closed interval
    [[0, duration]]. *)
Lemma time_base_closed_interval (duration sample_rate : R) :
  0 < duration -> 0 < sample_rate ->
  (2 <= py_int (sample_rate * duration))%Z ->
  let N := py_int (sample_rate * duration) in
  IZR N <= sample_rate * duration < IZR N + 1
  /\ exists ts,
       np_linspace 0 duration N = Ok ts
       /\ length ts = Z.to_nat N
       /\ nth 0 ts 0 = 0
       /\ (forall i, (i < Z.to_nat N - 1)%nat ->
             nth i ts 0 = INR i * (duration / IZR (N - 1)))
       /\ nth (Z.to_nat N - 1) ts 0 = duration.
Proof.
  intros Hd Hr HN N. split.
  - apply py_int_floor. apply Rlt_le, Rmult_lt_0_compat; assumption.
  - destruct (np_linspace_samples 0 duration N HN) as (ts & E & L & Hi & Hlast).
    exists ts. split; [exact E|]. split; [exact L|]. split; [|split].
    + rewrite Hi by (fold N in HN; lia). simpl. ring.
    + intros i Hlt. rewrite Hi by exact Hlt. rewrite Rminus_0_r. ring.
    + exact Hlast.
Qed.

(** C2 on the shipped configuration (duration 2 s, 1000 samples per
    second).  The script runs through; its time array has 2000 samples
    and starts at 0, but its last sample is 2, the duration itself, so
    not every sample is below the duration; and consecutive samples are
    [2 / 1999] apart, not the [1 / sample_rate] that the script later
    passes to [fftfreq] as the sample spacing. *)
Theorem main_time_array_reaches_duration `{GaussStream} `{Binary64}
        (st : RandomState) :
  exists a st',
    main st = (Ok a, st')
    /\ length (t a) = 2000%nat
    /\ nth 0 (t a) 0 = 0
    /\ nth 1999 (t a) 0 = duration SIGNAL_CONFIG
    /\ ~ nth 1999 (t a) 0 < duration SIGNAL_CONFIG
    /\ nth 1 (t a) 0 - nth 0 (t a) 0 = 2 / 1999
    /\ nth 1 (t a) 0 - nth 0 (t a) 0 <> 1 / sample_rate SIGNAL_CONFIG.
Proof.
  assert (EN : py_int (sample_rate SIGNAL_CONFIG * duration SIGNAL_CONFIG) = 2000%Z).
  { simpl. replace (1000 * 2) with (IZR 2000) by lra. apply py_int_IZR. }
  destruct (main_with_returns SIGNAL_CONFIG 20 st) as (a & st' & E & Et & L & _).
  - simpl. lra.
  - simpl. lra.
  - reflexivity.
  - rewrite EN. lia.
  - exists a, st'. split; [exact E|].
    rewrite EN in Et, L.
    destruct (np_linspace_samples 0 (duration SIGNAL_CONFIG) 2000)
      as (y & Ey & _ & Hi & Hlast); [lia|].
    rewrite Ey in Et. injection Et as Et. subst y.
    change (Z.to_nat 2000 - 1)%nat with 1999%nat in Hi, Hlast.
    split; [exact L|].
    assert (Ht0 : nth 0 (t a) 0 = 0) by (rewrite Hi by lia; simpl; lra).
    assert (Ht1 : nth 1 (t a) 0 = 2 / 1999).
    { rewrite Hi by lia. simpl. lra. }
    split; [exact Ht0|]. split; [exact Hlast|]. split; [rewrite Hlast; lra|].
    rewrite Ht0, Ht1. simpl. split; lra.
Qed.

(* ================================================================== *)
(** ** Noise injection                                                  *)
(* ================================================================== *)

(** C3, as stated, fails.  A call of [add_noise] with a negative level
    does raise, but only after [np.random.seed] has run: the global
    generator, here in the state left by key 7 after three draws, is
    reseeded to 42 by the failing call. *)
Lemma add_noise_reseeds_before_raising :
  add_noise (H := ramp_stream) [1] (-1) 42 (mkRandomState 7 3)
  = (Raise ValueError, mkRandomState 42 0)
  /\ ~ raises_untouched (add_noise (H := ramp_stream) [1] (-1) 42)
                        (mkRandomState 7 3).
Proof.
  assert (E : add_noise (H := ramp_stream) [1] (-1) 42 (mkRandomState 7 3)
              = (Raise ValueError, mkRandomState 42 0))
    by (apply add_noise_negative_level; [unfold valid_seed; lia|lra]).
  split; [exact E|].
  intros [e He]. rewrite E in He. discriminate He.
Qed.

(** C3, amended.  [add_noise] with a negative level raises [ValueError]
    and returns no array, the generator having been reseeded first when
    the seed is an accepted one; [apply_filter] raises [ValueError] on a
    negative or zero window and [TypeError] on a float window, and
    returns no array. *)
Theorem invalid_parameters_raise `{GaussStream}
        (signal : ndarray) (level : R) (seed w : Z) (x : R) (st : RandomState) :
  level < 0 -> (w <= 0)%Z ->
  fst (add_noise signal level seed st) = Raise ValueError
  /\ (valid_seed seed ->
      snd (add_noise signal level seed st) = mkRandomState seed 0)
  /\ apply_filter signal (PyInt w) = Raise ValueError
  /\ apply_filter signal (PyFloat x) = Raise TypeError.
Proof.
  intros Hlevel Hw. split; [|split; [|split]].
  - destruct (valid_seed_dec seed) as [Hs|Hs].
    + rewrite add_noise_negative_level by assumption. reflexivity.
    + rewrite add_noise_invalid_seed by assumption. reflexivity.
  - intros Hs. rewrite add_noise_negative_level by assumption. reflexivity.
  - destruct (Z.eq_dec w 0) as [E|E].
    + subst w. unfold apply_filter, np_convolve_same. simpl.
      destruct (length signal =? 0)%nat; reflexivity.
    + unfold apply_filter, np_ones.
      destruct (Z.ltb_spec w 0); [reflexivity|lia].
  - reflexivity.
Qed.

Lemma invalid_parameters_raise_witness :
  -1 < 0 /\ (0 <= 0)%Z
  /\ fst (add_noise (H := ramp_stream) [1; 2] (-1) 42 (mkRandomState 7 3))
     = Raise ValueError
  /\ (valid_seed 42 ->
      snd (add_noise (H := ramp_stream) [1; 2] (-1) 42 (mkRandomState 7 3))
      = mkRandomState 42 0)
  /\ apply_filter [1; 2] (PyInt 0) = Raise ValueError
  /\ apply_filter [1; 2] (PyFloat (5 / 2)) = Raise TypeError.
Proof.
  assert (Hlevel : -1 < 0) by lra.
  assert (Hw : (0 <= 0)%Z) by lia.
  split; [exact Hlevel|]. split; [exact Hw|].
  exact (@invalid_parameters_raise ramp_stream [1; 2] (-1) 42 0 (5 / 2)
           (mkRandomState 7 3) Hlevel Hw).
Defined.

(** C7.  Two calls of [add_noise] with the same seed and level on
    signals of one length, from any two generator states, either raise
    the same exception or return outputs whose differences from their
    inputs are the same noise vector; on the same signal the two
    outcomes are equal. *)
Theorem add_noise_deterministic `{GaussStream}
        (s1 s2 : ndarray) (level : R) (seed : Z) (st1 st2 : RandomState) :
  length s1 = length s2 ->
  ((exists e,
       fst (add_noise s1 level seed st1) = Raise e
       /\ fst (add_noise s2 level seed st2) = Raise e)
   \/ (exists o1 o2 noise,
         fst (add_noise s1 level seed st1) = Ok o1
         /\ fst (add_noise s2 level seed st2) = Ok o2
         /\ np_subtract o1 s1 = Ok noise
         /\ np_subtract o2 s2 = Ok noise))
  /\ (s1 = s2 ->
      fst (add_noise s1 level seed st1) = fst (add_noise s2 level seed st2)).
Proof.
  intros Hlen.
  destruct (valid_seed_dec seed) as [Hs|Hs].
  - destruct (Rlt_dec level 0) as [Hneg|Hpos].
    + rewrite !add_noise_negative_level by assumption. simpl.
      split; [left; exists ValueError; split; reflexivity|reflexivity].
    + apply Rnot_lt_le in Hpos.
      rewrite !add_noise_valid by assumption. simpl.
      split.
      * right. rewrite <- Hlen.
        set (noise := map _ (seq 0 (length s1))).
        assert (Ln : length noise = length s1)
          by (unfold noise; rewrite length_map, length_seq; reflexivity).
        exists (map2 Rplus s1 noise), (map2 Rplus s2 noise), noise.
        split; [reflexivity|]. split; [reflexivity|].
        unfold np_subtract.
        rewrite !broadcast2_same_length by (rewrite map2_length; lia).
        rewrite !map2_minus_plus by lia. split; reflexivity.
      * intros E. subst s2. reflexivity.
  - rewrite !add_noise_invalid_seed by assumption. simpl.
    split; [left; exists ValueError; split; reflexivity|reflexivity].
Qed.

Lemma add_noise_deterministic_witness :
  length [1; 2] = length [5; 7]
  /\ (exists o1 o2 noise,
        fst (add_noise (H := ramp_stream) [1; 2] (1 / 2) 42 (mkRandomState 7 3)) = Ok o1
        /\ fst (add_noise (H := ramp_stream) [5; 7] (1 / 2) 42 (mkRandomState 9 0)) = Ok o2
        /\ np_subtract o1 [1; 2] = Ok noise
        /\ np_subtract o2 [5; 7] = Ok noise).
Proof.
  assert (Hlen : length [1; 2] = length [5; 7]) by reflexivity.
  split; [exact Hlen|].
  destruct (proj1 (@add_noise_deterministic ramp_stream [1; 2] [5; 7] (1 / 2) 42
                     (mkRandomState 7 3) (mkRandomState 9 0) Hlen))
    as [(e & E1 & _)|Hok].
  - exfalso.
    rewrite add_noise_valid in E1 by (unfold valid_seed; lia || lra).
    discriminate E1.
  - exact Hok.
Defined.

(** C8, as stated, fails for a seed the generator does not accept:
    [np.random.seed(-1)] raises, and no signal is returned. *)
Lemma add_noise_zero_level_bad_seed :
  add_noise (H := ramp_stream) [1] 0 (-1) (mkRandomState 7 3)
  = (Raise ValueError, mkRandomState 7 3).
Proof.
  apply add_noise_invalid_seed. unfold valid_seed. lia.
Qed.

(** C8, amended.  For every signal and every seed in [0 .. 2^32 - 1],
    [add_noise signal 0 seed] returns the input signal itself. *)
Theorem add_noise_zero_level `{GaussStream}
        (signal : ndarray) (seed : Z) (st : RandomState) :
  valid_seed seed ->
  fst (add_noise signal 0 seed st) = Ok signal.
Proof.
  intros Hs. rewrite add_noise_valid by (assumption || lra). simpl.
  rewrite (map_ext _ (fun _ => 0)) by (intros; ring).
  rewrite map_const, length_seq, map2_plus_zeros. reflexivity.
Qed.

Lemma add_noise_zero_level_witness :
  valid_seed 42
  /\ fst (add_noise (H := ramp_stream) [1; 2; 3] 0 42 (mkRandomState 7 3))
     = Ok [1; 2; 3].
Proof.
  assert (Hs : valid_seed 42) by (unfold valid_seed; lia).
  split; [exact Hs|].
  exact (@add_noise_zero_level ramp_stream [1; 2; 3] 42 (mkRandomState 7 3) Hs).
Defined.

(* ================================================================== *)
(** ** Quality metrics                                                  *)
(* ================================================================== *)

(** C4.  On the empty signal [calculate_statistics] raises (the
    [ValueError] of [np.min] on an empty array); on every non-empty
    signal it returns five finite statistics: the mean, the population
    standard deviation, a smallest and a largest sample, and the root
    mean square. *)
Theorem calculate_statistics_raises_iff_empty (signal : ndarray) (name : string) :
  (signal = [] -> calculate_statistics signal name = Raise ValueError)
  /\ (signal <> [] ->
      exists mean std mn mx rms,
        calculate_statistics signal name
        = Ok (mkStats (Fin mean) (Fin std) (Fin mn) (Fin mx) (Fin rms))
        /\ mean = np_sum signal / INR (length signal)
        /\ std = sqrt (np_sum (np_square (map (fun x => x - mean) signal))
                       / INR (length signal))
        /\ In mn signal /\ In mx signal
        /\ Forall (fun x => mn <= x <= mx) signal
        /\ rms = sqrt (np_sum (np_square signal) / INR (length signal))).
Proof.
  split.
  - intros E. subst signal. reflexivity.
  - intros Hs. destruct signal as [|x l]; [congruence|].
    rewrite calculate_statistics_nonempty.
    destruct (fold_left_Rmin_spec l x) as [Imin Hmin].
    destruct (fold_left_Rmax_spec l x) as [Imax Hmax].
    do 5 eexists. split; [reflexivity|].
    repeat (split; [reflexivity || assumption|]).
    split; [|reflexivity].
    rewrite Forall_forall in *. intros y Hy.
    split; [apply Hmin|apply Hmax]; exact Hy.
Qed.

Lemma calculate_statistics_raises_iff_empty_witness :
  calculate_statistics [] "Empty" = Raise ValueError
  /\ exists mean std mn mx rms,
       calculate_statistics [1; 3] "Two samples"
       = Ok (mkStats (Fin mean) (Fin std) (Fin mn) (Fin mx) (Fin rms))
       /\ mean = np_sum [1; 3] / INR (length [1; 3])
       /\ std = sqrt (np_sum (np_square (map (fun x => x - mean) [1; 3]))
                      / INR (length [1; 3]))
       /\ In mn [1; 3] /\ In mx [1; 3]
       /\ Forall (fun x => mn <= x <= mx) [1; 3]
       /\ rms = sqrt (np_sum (np_square [1; 3]) / INR (length [1; 3])).
Proof.
  split.
  - exact (proj1 (calculate_statistics_raises_iff_empty [] "Empty") eq_refl).
  - apply (proj2 (calculate_statistics_raises_iff_empty [1; 3] "Two samples")).
    discriminate.
Defined.

(** C6.  On non-empty signals of one length [calculate_snr] always
    returns a value.  The mean squared noise is never negative.  When it
    is positive the value is [10 * log10 (signal_power / noise_power)],
    a real number for a positive signal power and [-inf], the value of
    [log10] at zero, for a zero one.  When it is zero, as it is for the
    all-zero noise vector, the value is [+inf]. *)
Theorem calculate_snr_value (signal noise : ndarray) :
  signal <> [] -> noise <> [] -> length signal = length noise ->
  let signal_power := np_sum (np_square signal) / INR (length signal) in
  let noise_power := np_sum (np_square noise) / INR (length noise) in
  0 <= noise_power
  /\ (0 < noise_power ->
      calculate_snr signal noise
      = f_mul (Fin 10) (np_log10 (Fin (signal_power / noise_power))))
  /\ (0 < noise_power -> 0 < signal_power ->
      calculate_snr signal noise = Fin (10 * log10 (signal_power / noise_power)))
  /\ (0 < noise_power -> signal_power = 0 ->
      calculate_snr signal noise = NegInf)
  /\ (noise_power = 0 -> calculate_snr signal noise = PosInf)
  /\ (Forall (fun x => x = 0) noise -> calculate_snr signal noise = PosInf).
Proof.
  intros Hs Hn Hlen sp np.
  pose proof (mean_square_nonneg noise Hn) as Hnp. fold np in Hnp.
  pose proof (mean_square_nonneg signal Hs) as Hsp. fold sp in Hsp.
  assert (E : calculate_snr signal noise
              = if Rlt_dec 0 np
                then f_mul (Fin 10) (np_log10 (f_div (Fin sp) (Fin np)))
                else np_inf).
  { unfold calculate_snr.
    rewrite !np_mean_nonempty by (apply np_square_nonempty; assumption).
    rewrite !length_np_square. fold sp np.
    unfold f_gt0. destruct (Rlt_dec 0 np); reflexivity. }
  assert (Epos : 0 < np ->
                 calculate_snr signal noise
                 = f_mul (Fin 10) (np_log10 (Fin (sp / np)))).
  { intros H. rewrite E. destruct (Rlt_dec 0 np); [|contradiction].
    unfold f_div. destruct (Req_dec_T np 0); [lra|reflexivity]. }
  assert (Ezero : np = 0 -> calculate_snr signal noise = PosInf).
  { intros H. rewrite E. destruct (Rlt_dec 0 np); [lra|reflexivity]. }
  split; [exact Hnp|]. split; [exact Epos|]. split; [|split; [|split]].
  - intros H Hpos. rewrite Epos by exact H.
    assert (0 < sp / np) by (apply Rdiv_lt_0_compat; assumption).
    unfold np_log10. destruct (Rlt_dec 0 (sp / np)); [reflexivity|contradiction].
  - intros H Hz. rewrite Epos by exact H. rewrite Hz.
    replace (0 / np) with 0 by (unfold Rdiv; ring).
    unfold np_log10.
    destruct (Rlt_dec 0 0); [lra|]. simpl.
    unfold inf_of_sign. destruct (Rlt_dec 0 10); [reflexivity|lra].
  - exact Ezero.
  - intros HF. apply Ezero. unfold np.
    rewrite (proj2 (np_sum_square_zero_iff noise) HF). unfold Rdiv. ring.
Qed.

Lemma calculate_snr_value_witness :
  [3; 4] <> [] /\ [0; 0] <> [] /\ length [3; 4] = length [0; 0]
  /\ calculate_snr [3; 4] [0; 0] = PosInf.
Proof.
  assert (Hs : [3; 4] <> []) by discriminate.
  assert (Hn : [0; 0] <> []) by discriminate.
  assert (Hlen : length [3; 4] = length [0; 0]) by reflexivity.
  repeat (split; [assumption|]).
  apply (calculate_snr_value [3; 4] [0; 0] Hs Hn Hlen).
  repeat constructor.
Defined.

(* ================================================================== *)
(** ** Waveform synthesis                                               *)
(* ================================================================== *)



(* ================================================================== *)
(** ** Further properties of the waveforms                              *)
(* ================================================================== *)




(* ================================================================== *)
(** ** Further properties of the smoothing filter                       *)
(* ================================================================== *)

Lemma nth_map_R (f : R -> R) (l : ndarray) (i : nat) :
  (i < length l)%nat -> nth i (map f l) 0 = f (nth i l 0).
Proof.
  intros H. rewrite (nth_indep _ 0 (f 0)) by (rewrite length_map; exact H).
  apply map_nth.
Qed.

Lemma nth_map2 (f : R -> R -> R) (a b : ndarray) (i : nat) :
  length a = length b -> (i < length a)%nat ->
  nth i (map2 f a b) 0 = f (nth i a 0) (nth i b 0).
Proof.
  revert b i. induction a as [|x a IH]; intros [|y b] i Hl Hi; simpl in *; try lia.
  destruct i as [|i]; [reflexivity|]. apply IH; lia.
Qed.

Lemma sample_scale (c : R) (s : ndarray) (j : Z) :
  sample (map (Rmult c) s) j = c * sample s j.
Proof.
  unfold sample. rewrite length_map.
  destruct ((0 <=? j) && (j <? Z.of_nat (length s)))%Z eqn:E; [|ring].
  apply andb_prop in E. destruct E as [E0 E1].
  apply Z.leb_le in E0. apply Z.ltb_lt in E1.
  apply nth_map_R. lia.
Qed.

Lemma sample_plus (a b : ndarray) (j : Z) :
  length a = length b ->
  sample (map2 Rplus a b) j = sample a j + sample b j.
Proof.
  intros Hl. unfold sample. rewrite map2_length, <- Hl by exact Hl.
  destruct ((0 <=? j) && (j <? Z.of_nat (length a)))%Z eqn:E; [|ring].
  apply andb_prop in E. destruct E as [E0 E1].
  apply Z.leb_le in E0. apply Z.ltb_lt in E1.
  apply nth_map2; [exact Hl|lia].
Qed.

Lemma big_sum_plus (f g : nat -> R) (n : nat) :
  big_sum (fun k => f k + g k) n = big_sum f n + big_sum g n.
Proof.
  induction n as [|n IH].
  - unfold big_sum. simpl. ring.
  - rewrite !big_sum_S, IH. ring.
Qed.

Lemma window_sum_linear (s1 s2 : ndarray) (c : R) (lo : Z) (n : nat) :
  length s1 = length s2 ->
  window_sum (map2 Rplus (map (Rmult c) s1) s2) lo n
  = c * window_sum s1 lo n + window_sum s2 lo n.
Proof.
  intros Hl. unfold window_sum.
  rewrite (big_sum_ext _ (fun k => sample s1 (lo + Z.of_nat k) * c
                                   + sample s2 (lo + Z.of_nat k))).
  - rewrite big_sum_plus, big_sum_scal. ring.
  - intros k _. rewrite sample_plus by (rewrite length_map; exact Hl).
    rewrite sample_scale. ring.
Qed.

(** X7.  The filter is linear: on two signals of one length and a
    window that fits, filtering [c * s1 + s2] gives [c] times the
    filtered [s1] plus the filtered [s2]. *)
Theorem apply_filter_linear (s1 s2 : ndarray) (c : R) (w : Z) :
  length s1 = length s2 ->
  (1 <= w <= Z.of_nat (length s1))%Z ->
  exists o1 o2,
    apply_filter s1 (PyInt w) = Ok o1
    /\ apply_filter s2 (PyInt w) = Ok o2
    /\ apply_filter (map2 Rplus (map (Rmult c) s1) s2) (PyInt w)
       = Ok (map2 Rplus (map (Rmult c) o1) o2).
Proof.
  intros Hl Hw.
  set (s := map2 Rplus (map (Rmult c) s1) s2).
  assert (Ls : length s = length s1)
    by (unfold s; rewrite map2_length; rewrite length_map; auto).
  destruct (apply_filter_nth s1 w Hw) as (o1 & E1 & L1 & N1).
  destruct (apply_filter_nth s2 w) as (o2 & E2 & L2 & N2); [rewrite <- Hl; exact Hw|].
  destruct (apply_filter_nth s w) as (o & E & L & N); [rewrite Ls; exact Hw|].
  exists o1, o2. split; [exact E1|]. split; [exact E2|].
  rewrite E. f_equal.
  assert (Lo : length (map (Rmult c) o1) = length o2)
    by (rewrite length_map; lia).
  apply (nth_ext _ _ 0 0).
  - rewrite map2_length by exact Lo. rewrite length_map. lia.
  - intros i Hi.
    rewrite nth_map2 by (rewrite ?length_map; lia).
    rewrite nth_map_R by lia.
    rewrite N, N1, N2 by lia.
    unfold s. rewrite window_sum_linear by exact Hl.
    unfold Rdiv. ring.
Qed.

Lemma apply_filter_linear_witness :
  length [1; 2; 3] = length [4; 0; 2]
  /\ (1 <= 2 <= Z.of_nat (length [1; 2; 3]))%Z
  /\ exists o1 o2,
       apply_filter [1; 2; 3] (PyInt 2) = Ok o1
       /\ apply_filter [4; 0; 2] (PyInt 2) = Ok o2
       /\ apply_filter (map2 Rplus (map (Rmult 5) [1; 2; 3]) [4; 0; 2]) (PyInt 2)
          = Ok (map2 Rplus (map (Rmult 5) o1) o2).
Proof.
  assert (Hl : length [1; 2; 3] = length [4; 0; 2]) by reflexivity.
  assert (Hw : (1 <= 2 <= Z.of_nat (length [1; 2; 3]))%Z) by (simpl; lia).
  split; [exact Hl|]. split; [exact Hw|].
  exact (apply_filter_linear [1; 2; 3] [4; 0; 2] 5 2 Hl Hw).
Defined.

Lemma big_sum_const (c : R) (n : nat) : big_sum (fun _ => c) n = INR n * c.
Proof.
  induction n as [|n IH].
  - unfold big_sum. simpl. ring.
  - rewrite big_sum_S, IH, S_INR. ring.
Qed.

(** A window that lies inside the array sums the samples it covers. *)
Lemma window_sum_inside (s : ndarray) (lo : Z) (n : nat) :
  (0 <= lo)%Z -> (lo + Z.of_nat n <= Z.of_nat (length s))%Z ->
  window_sum s lo n = np_sum (firstn n (skipn (Z.to_nat lo) s)).
Proof.
  intros H0 H1. rewrite np_sum_slice by lia. unfold window_sum.
  apply big_sum_ext. intros k Hk.
  rewrite sample_inside by lia. f_equal. lia.
Qed.

(** X9.  Away from the edges, where the whole window
    [i - w/2 .. i - w/2 + w - 1] lies inside the array, the output is
    the arithmetic mean of the [w] samples under the window; there a
    constant signal passes through unchanged. *)
Theorem apply_filter_interior_mean (signal : ndarray) (w : Z) (i : nat) (c : R) :
  (1 <= w <= Z.of_nat (length signal))%Z ->
  (w / 2 <= Z.of_nat i)%Z ->
  (Z.of_nat i - w / 2 + w <= Z.of_nat (length signal))%Z ->
  exists out,
    apply_filter signal (PyInt w) = Ok out
    /\ nth i out 0
       = np_sum (firstn (Z.to_nat w)
                        (skipn (Z.to_nat (Z.of_nat i - w / 2)) signal))
         / IZR w
    /\ (Forall (fun x => x = c) signal -> nth i out 0 = c).
Proof.
  intros Hw Hlo Hhi.
  destruct (apply_filter_nth signal w Hw) as (out & E & L & N).
  exists out. split; [exact E|].
  assert (Hh : (0 <= w / 2 < w)%Z)
    by (split; [apply Z.div_pos; lia|apply Z.div_lt_upper_bound; lia]).
  assert (Hi : (i < length signal)%nat).
  { revert Hlo Hhi Hh. generalize (w / 2)%Z. intros h Hlo Hhi Hh. lia. }
  rewrite (N i Hi).
  assert (Hwpos : IZR w <> 0) by (apply not_0_IZR; lia).
  revert Hlo Hhi Hh. generalize (w / 2)%Z. intros h Hlo Hhi Hh.
  split.
  - rewrite window_sum_inside by lia. reflexivity.
  - intros Hc. unfold window_sum.
    rewrite (big_sum_ext _ (fun _ => c)).
    + rewrite big_sum_const, INR_IZR_INZ, Z2Nat.id by lia. field. exact Hwpos.
    + intros k Hk. rewrite sample_inside by lia.
      rewrite Forall_forall in Hc. apply Hc. apply nth_In. lia.
Qed.

Lemma apply_filter_interior_mean_witness :
  (1 <= 3 <= Z.of_nat (length [7; 7; 7; 7]))%Z
  /\ (3 / 2 <= Z.of_nat 1)%Z
  /\ (Z.of_nat 1 - 3 / 2 + 3 <= Z.of_nat (length [7; 7; 7; 7]))%Z
  /\ exists out,
       apply_filter [7; 7; 7; 7] (PyInt 3) = Ok out
       /\ nth 1 out 0
          = np_sum (firstn (Z.to_nat 3)
                           (skipn (Z.to_nat (Z.of_nat 1 - 3 / 2)) [7; 7; 7; 7]))
            / IZR 3
       /\ (Forall (fun x => x = 7) [7; 7; 7; 7] -> nth 1 out 0 = 7).
Proof.
  assert (Hw : (1 <= 3 <= Z.of_nat (length [7; 7; 7; 7]))%Z) by (simpl; lia).
  assert (Hlo : (3 / 2 <= Z.of_nat 1)%Z) by (vm_compute; discriminate).
  assert (Hhi : (Z.of_nat 1 - 3 / 2 + 3 <= Z.of_nat (length [7; 7; 7; 7]))%Z)
    by (vm_compute; discriminate).
  split; [exact Hw|]. split; [exact Hlo|]. split; [exact Hhi|].
  exact (apply_filter_interior_mean [7; 7; 7; 7] 3 1 7 Hw Hlo Hhi).
Defined.

(* ================================================================== *)
(** ** Further properties of the statistics                             *)
(* ================================================================== *)

Lemma np_sum_square_shift (l : ndarray) (c : R) :
  np_sum (np_square (map (fun x => x - c) l))
  = np_sum (np_square l) - 2 * c * np_sum l + INR (length l) * (c * c).
Proof.
  induction l as [|x l IH].
  - unfold np_sum. simpl. ring.
  - cbn [map np_square length]. rewrite S_INR.
    change (map (fun x0 => x0 * x0) ?a) with (np_square a) in *.
    rewrite !np_sum_cons.
    change (np_sum (map (fun x0 => x0 * x0) (map (fun x0 => x0 - c) l)))
      with (np_sum (np_square (map (fun x0 => x0 - c) l))).
    change (np_sum (map (fun x0 => x0 * x0) l)) with (np_sum (np_square l)).
    rewrite IH. ring.
Qed.

(** X10.  Whenever [calculate_statistics] returns finite mean,
    standard deviation and rms, they satisfy
    [rms^2 = mean^2 + std^2], and neither the standard deviation nor
    the rms is negative. *)
Theorem calculate_statistics_power_identity
        (signal : ndarray) (name : string) (st : Stats) (mean std rms : R) :
  calculate_statistics signal name = Ok st ->
  st_mean st = Fin mean -> st_std st = Fin std -> st_rms st = Fin rms ->
  rms * rms = mean * mean + std * std /\ 0 <= std /\ 0 <= rms.
Proof.
  intros E Em Es Er.
  destruct signal as [|x l]; [discriminate E|].
  pose proof (calculate_statistics_nonempty x l name) as E'.
  remember (x :: l) as s eqn:Hs.
  assert (Hne : s <> []) by (subst s; discriminate).
  remember (INR (length s)) as n eqn:Hn.
  assert (Hpos : 0 < n) by (subst n; apply INR_length_pos; exact Hne).
  remember (np_sum s / n) as m eqn:Hm.
  remember (np_sum (np_square s) / n) as A eqn:HA.
  remember (np_sum (np_square (map (fun y => y - m) s)) / n) as B eqn:HB.
  assert (PA : 0 <= A) by (subst A n; apply mean_square_nonneg; exact Hne).
  assert (PB : 0 <= B).
  { subst B n. rewrite <- (length_map (fun y => y - m) s).
    apply mean_square_nonneg. subst s. discriminate. }
  assert (Hid : A = m * m + B).
  { subst A B. rewrite np_sum_square_shift. rewrite <- Hn. subst m. field. lra. }
  rewrite E' in E. injection E as E. subst st.
  cbn [st_mean st_std st_rms] in Em, Es, Er.
  injection Em as Em. injection Es as Es. injection Er as Er.
  pose proof (sqrt_sqrt A PA) as EA. pose proof (sqrt_sqrt B PB) as EB.
  subst mean std rms.
  split; [lra|]. split; apply sqrt_pos.
Qed.

Lemma calculate_statistics_power_identity_witness :
  exists st mean std rms,
    calculate_statistics [3; 4] "Two samples" = Ok st
    /\ st_mean st = Fin mean /\ st_std st = Fin std /\ st_rms st = Fin rms
    /\ rms * rms = mean * mean + std * std /\ 0 <= std /\ 0 <= rms.
Proof.
  eexists; eexists; eexists; eexists.
  split; [apply calculate_statistics_nonempty|].
  split; [reflexivity|]. split; [reflexivity|]. split; [reflexivity|].
  apply (calculate_statistics_power_identity [3; 4] "Two samples" _ _ _ _
           (calculate_statistics_nonempty 3 [4] "Two samples")
           eq_refl eq_refl eq_refl).
Defined.






(* ================================================================== *)
(** ** Further properties of the signal-to-noise ratio                  *)
(* ================================================================== *)








(* ================================================================== *)
(** ** Further properties of the time base and the main script          *)
(* ================================================================== *)














(** The noise vector [add_noise] adds, in plain form. *)
Lemma add_noise_adds `{GaussStream} (s : ndarray) (level : R) (seed : Z)
      (st : RandomState) :
  valid_seed seed -> 0 <= level ->
  add_noise s level seed st =
  (Ok (map2 Rplus s (map (fun k => level * gauss seed k) (seq 0 (length s)))),
   mkRandomState seed (length s)).
Proof.
  intros Hseed Hlevel. rewrite add_noise_valid by assumption.
  do 3 f_equal. apply map_ext. intros k. simpl. ring.
Qed.

(** X19.  In the main script the three noisy signals carry one and the
    same noise vector, the noise level times the first variates that
    follow seed 42, because every call of [add_noise] reseeds the
    generator; the reported noisy SNR is the ratio of the clean sine to
    that vector, and the generator is left as seed 42 leaves it after
    one signal's worth of draws. *)
Theorem main_with_shared_noise `{GaussStream} `{Binary64}
        (cfg : Config) (w : Z) (st : RandomState) :
  0 <= sample_rate cfg * duration cfg ->
  0 <= noise_level cfg ->
  filter_window cfg = PyInt w ->
  (1 <= w <= py_int (sample_rate cfg * duration cfg))%Z ->
  exists a st' noise,
    main_with cfg st = (Ok a, st')
    /\ noise = map (fun k => noise_level cfg * gauss default_seed k)
                   (seq 0 (length (t a)))
    /\ np_subtract (noisy_sine a) (clean_sine a) = Ok noise
    /\ np_subtract (noisy_square a) (clean_square a) = Ok noise
    /\ np_subtract (noisy_sawtooth a) (clean_sawtooth a) = Ok noise
    /\ snr_noisy a = calculate_snr (clean_sine a) noise
    /\ st' = mkRandomState default_seed (length (t a)).
Proof.
  intros Hprod Hlevel Hwin Hw.
  set (N := py_int (sample_rate cfg * duration cfg)) in *.
  destruct (np_linspace_length 0 (duration cfg) N) as (ts & Hts & Hlen); [lia|].
  unfold main_with. cbv zeta. fold N. rewrite Hwin.
  rewrite (rand_bind_lift_ok _ _ _ _ Hts).
  set (cs := generate_sine_wave ts (frequency cfg) (amplitude cfg)).
  set (cq := generate_square_wave ts (frequency cfg) (amplitude cfg)).
  set (cw := generate_sawtooth_wave ts (frequency cfg) (amplitude cfg)).
  assert (Lcs : length cs = length ts) by apply length_generate_sine_wave.
  assert (Lcq : length cq = length ts) by apply length_generate_square_wave.
  assert (Lcw : length cw = length ts) by apply length_generate_sawtooth_wave.
  set (noise := map (fun k => noise_level cfg * gauss default_seed k)
                    (seq 0 (length ts))).
  assert (Ln : length noise = length ts)
    by (unfold noise; rewrite length_map, length_seq; reflexivity).
  rewrite (rand_bind_ok _ _ _ _ _
             (add_noise_adds cs _ _ st valid_default_seed Hlevel)).
  rewrite (rand_bind_ok _ _ _ _ _
             (add_noise_adds cq _ _ _ valid_default_seed Hlevel)).
  rewrite (rand_bind_ok _ _ _ _ _
             (add_noise_adds cw _ _ _ valid_default_seed Hlevel)).
  rewrite Lcs, Lcq, Lcw. fold noise.
  set (ns := map2 Rplus cs noise).
  set (nq := map2 Rplus cq noise).
  set (nw := map2 Rplus cw noise).
  assert (Lns : length ns = length ts) by (unfold ns; rewrite map2_length; lia).
  assert (Lnq : length nq = length ts) by (unfold nq; rewrite map2_length; lia).
  assert (Lnw : length nw = length ts) by (unfold nw; rewrite map2_length; lia).
  destruct (apply_filter_returns ns w) as (fs & Efs & Lfs);
    [apply length_pos_nonempty; lia|lia|].
  rewrite (rand_bind_lift_ok _ _ _ _ Efs).
  destruct (apply_filter_returns nq w) as (fq & Efq & Lfq);
    [apply length_pos_nonempty; lia|lia|].
  rewrite (rand_bind_lift_ok _ _ _ _ Efq).
  destruct (apply_filter_returns nw w) as (fw & Efw & Lfw);
    [apply length_pos_nonempty; lia|lia|].
  rewrite (rand_bind_lift_ok _ _ _ _ Efw).
  assert (Sub : forall c, length c = length ts ->
                  np_subtract (map2 Rplus c noise) c = Ok noise).
  { intros c Lc. unfold np_subtract.
    rewrite broadcast2_same_length by (rewrite map2_length; lia).
    rewrite map2_minus_plus by lia. reflexivity. }
  rewrite (rand_bind_lift_ok _ _ _ _ (Sub cs Lcs)).
  unfold np_subtract at 1.
  rewrite (rand_bind_lift_ok _ _ _ _ (broadcast2_same_length Rminus fs cs ltac:(lia))).
  destruct (calculate_statistics_returns cs "Clean Sine Wave") as (s1 & Es1);
    [apply length_pos_nonempty; lia|].
  rewrite (rand_bind_lift_ok _ _ _ _ Es1).
  destruct (calculate_statistics_returns ns "Noisy Sine Wave") as (s2 & Es2);
    [apply length_pos_nonempty; lia|].
  rewrite (rand_bind_lift_ok _ _ _ _ Es2).
  destruct (calculate_statistics_returns fs "Filtered Sine Wave") as (s3 & Es3);
    [apply length_pos_nonempty; lia|].
  rewrite (rand_bind_lift_ok _ _ _ _ Es3).
  unfold rand_ret.
  eexists; eexists; exists noise. split; [reflexivity|]. simpl.
  split; [reflexivity|].
  split; [exact (Sub cs Lcs)|]. split; [exact (Sub cq Lcq)|].
  split; [exact (Sub cw Lcw)|]. split; reflexivity.
Qed.

Lemma main_with_shared_noise_witness :
  0 <= sample_rate SIGNAL_CONFIG * duration SIGNAL_CONFIG
  /\ 0 <= noise_level SIGNAL_CONFIG
  /\ filter_window SIGNAL_CONFIG = PyInt 20
  /\ (1 <= 20 <= py_int (sample_rate SIGNAL_CONFIG * duration SIGNAL_CONFIG))%Z
  /\ exists a st' noise,
       main_with (H := ramp_stream) (H0 := exact_arithmetic)
         SIGNAL_CONFIG (mkRandomState 0 0) = (Ok a, st')
       /\ noise = map (fun k => noise_level SIGNAL_CONFIG * ramp_stream default_seed k)
                      (seq 0 (length (t a)))
       /\ np_subtract (noisy_sine a) (clean_sine a) = Ok noise
       /\ np_subtract (noisy_square a) (clean_square a) = Ok noise
       /\ np_subtract (noisy_sawtooth a) (clean_sawtooth a) = Ok noise
       /\ snr_noisy a = calculate_snr (clean_sine a) noise
       /\ st' = mkRandomState default_seed (length (t a)).
Proof.
  assert (Hp : 0 <= sample_rate SIGNAL_CONFIG * duration SIGNAL_CONFIG)
    by (simpl; lra).
  assert (Hl : 0 <= noise_level SIGNAL_CONFIG) by (simpl; lra).
  assert (Hwin : filter_window SIGNAL_CONFIG = PyInt 20) by reflexivity.
  assert (Hw : (1 <= 20 <= py_int (sample_rate SIGNAL_CONFIG * duration SIGNAL_CONFIG))%Z).
  { simpl. replace (1000 * 2) with (IZR 2000) by lra. rewrite py_int_IZR. lia. }
  split; [exact Hp|]. split; [exact Hl|]. split; [exact Hwin|]. split; [exact Hw|].
  exact (@main_with_shared_noise ramp_stream exact_arithmetic SIGNAL_CONFIG 20
           (mkRandomState 0 0)
           Hp Hl Hwin Hw).
Defined.
